(** * Double-DQN training script for LunarLander: model and properties

    Shallow embedding of [lunarlander.py].  The script is a single-threaded
    loop over module-level globals; every function below takes the globals
    it reads and returns the ones it writes.  Python exceptions are [None]
    in the [option] monad, the [while not done] loop runs on fuel.

    Floating-point numbers are kept abstract: the script is embedded over
    any type [R] carrying the arithmetic and comparisons the code uses
    (class [Scalar]); the rationals are the instance used for concrete
    runs.  The collaborators the script imports but does not define
    (environment, network layers, automatic differentiation, optimizer,
    random source) are interfaces, with a small deterministic instance of
    each in [Module Toy]. *)

From Stdlib Require Import String ZArith QArith Qabs Bool Lia PeanoNat List.
Import ListNotations.

Set Implicit Arguments.

(** ** Numbers *)

(** The operations of Python floats and torch scalars used by the script;
    [to_float32] is the cast of [dtype=torch.float32].  [fle_not_gt] is the only law assumed: [a <= b] excludes [b < a]; it
    holds for IEEE comparisons, NaN included. *)
Class Scalar (R : Type) := {
  lit : Q -> R;
  fadd : R -> R -> R;
  fsub : R -> R -> R;
  fmul : R -> R -> R;
  fdiv : R -> R -> R;
  fabs : R -> R;
  to_float32 : R -> R;
  flt : R -> R -> bool;
  fle : R -> R -> bool;
  fle_not_gt : forall a b, fle a b = true -> flt b a = false
}.

(** Python's [a > b]. *)
Definition fgt {R} `{Scalar R} (a b : R) : bool := flt b a.

(** Python's two-argument [max]: the first argument unless the second is
    strictly greater. *)
Definition pymax {R} `{Scalar R} (a b : R) : R := if fgt b a then b else a.

(** An [int] used where a float is expected, as in [reward / (i + 1)]. *)
Definition of_nat {R} `{Scalar R} (n : nat) : R := lit (inject_Z (Z.of_nat n)).

(** ** Exceptions *)

Notation "x <- e ;; k" :=
  (match e with Some x => k | None => None end)
  (at level 61, e at next level, right associativity).
Notation "' p <- e ;; k" :=
  (match e with Some p => k | None => None end)
  (at level 61, p pattern, e at next level, right associativity).

(** Result of a loop run on fuel. *)
Inductive outcome (A : Type) : Type :=
| Returned (a : A)
| Raised
| OutOfFuel.
Arguments Raised {A}.
Arguments OutOfFuel {A}.

(** ** Configuration (the upper-case module constants) *)

Record Config (R : Type) := {
  BATCH_SIZE : positive;
  INPUT_N_STATES : positive;
  TRAIN_INTERVAL : positive;
  SAVE_INTERVAL : positive;
  EPOCHS : nat;
  EPISODES_PER_EPOCH : nat;
  SOFT_COPY_INTERVAL : positive;
  HARD_COPY_INTERVAL : positive;
  GAMMA : R;
  TAU : R;
  REWARD_AFFECT_PAST_N : nat;
  REWARD_AFFECT_THRESH : R * R;
  MEMORY_REWARD_THRESH : R;
  DISABLE_RANDOM : bool;
  SAVING_ENABLED : bool;
  LEARNING_ENABLED : bool;
  EPS_DECAY : R;
  MIN_EPS : R;
  SURPRISAL_BIAS : R;
  SURPRISAL_WEIGHT : R
}.

(** The values written in the script. *)
Definition lunarlander {R} `{Scalar R} : Config R := {|
  BATCH_SIZE := 64;
  INPUT_N_STATES := 4;
  TRAIN_INTERVAL := 1;
  SAVE_INTERVAL := 5000;
  EPOCHS := 5000;
  EPISODES_PER_EPOCH := 1;
  SOFT_COPY_INTERVAL := 1;
  HARD_COPY_INTERVAL := 10000;
  GAMMA := lit (99 # 100);
  TAU := lit (1 # 10000);
  REWARD_AFFECT_PAST_N := 10;
  REWARD_AFFECT_THRESH := (lit (-5 # 1), lit (5 # 1));
  MEMORY_REWARD_THRESH := lit 0;
  DISABLE_RANDOM := false;
  SAVING_ENABLED := true;
  LEARNING_ENABLED := true;
  EPS_DECAY := lit (1 # 1000);
  MIN_EPS := lit (5 # 100);
  SURPRISAL_BIAS := lit 0;
  SURPRISAL_WEIGHT := lit (1 # 1000)
|}.

(** Starting epsilon, [eps = 2]. *)
Definition eps_start {R} `{Scalar R} : R := lit (2 # 1).

(** [env.action_space.n] of LunarLander-v2; [model_infer] logs
    [output_0] .. [output_3]. *)
Definition N_ACTIONS : nat := 4.

(** ** Collaborators *)

(** [gymnasium] environment: [reset] and [step] ([info] is dropped). *)
Class Environment (R Env : Type) := {
  env_reset : Env -> list R * Env;
  env_step : Env -> nat -> (list R * R * bool * bool) * Env
}.

(** The layers of [CustomDQN] on one sample: the action-value head
    ([lin_1], [lin_2a], [lin_oA]) and the next-state head ([lin_1], the
    one-hot action, [lin_2b], [lin_oB]), as functions of the flattened
    parameter vector. *)
Class Network (R : Type) := {
  q_value : list R -> list R -> nat -> R;
  next_state_head : list R -> list R -> nat -> list R
}.

(** [torch]: the Huber criterion, reverse-mode differentiation of a scalar
    function of the parameters, the RAdam update and the gradient norm. *)
Class Torch (R Opt : Type) := {
  HuberLoss : list (list R) -> list (list R) -> R;
  autograd : (list R -> R) -> list R -> list R;
  RAdam_step : Opt -> list R -> list R -> list R * Opt;
  grad_l2norm : list R -> R
}.

(** The random sources: one uniform draw in [0,1), one index below a
    bound. *)
Class Random (R Rng : Type) := {
  rand_uniform : Rng -> R * Rng;
  rand_index : nat -> Rng -> nat * Rng
}.

(** ** Data *)

(** [Transition = namedtuple('Transition', ('state', 'action',
    'next_state', 'reward'))]. *)
Record Transition (R : Type) := {
  state : list R;
  action : nat;
  next_state : list R;
  reward : R
}.

(** [mem_block = [state_tensor, max_a, next_state_tensor, reward]], the
    mutable list kept in [short_memory].  The reward tensor of a block is
    created in the iteration that builds the block and is referenced by
    that block alone while it is in the window, so the in-place [+=] of
    [affect_short_mem] is an update of this field. *)
Record mem_block (R : Type) := {
  mb_state : list R;
  mb_action : nat;
  mb_next_state : list R;
  mb_reward : R
}.

(** The block unpacked into a [Transition]. *)
Definition Transition_of {R} (b : mem_block R) : Transition R :=
  {| state := mb_state b; action := mb_action b;
     next_state := mb_next_state b; reward := mb_reward b |}.

(** Modelled from the spec: [MemoryStack] is imported from
    [utils.memory_stack], which is not among the sources.  A
    fixed-capacity store of transitions, oldest first. *)
Record MemoryStack (R : Type) := {
  capacity : Z;
  memory : list (Transition R)
}.

(** Modelled from the spec: [Multiplot] is imported from
    [utils.multiplot], which is not among the sources.  The telemetry
    sink: named scalar entries, in order. *)
Definition Multiplot (R : Type) : Type := list (string * R).

Definition add_entry {R} (name : string) (v : R) (m : Multiplot R) : Multiplot R :=
  m ++ [(name, v)].

(** ** Tensor helpers *)

Section Tensors.
Context {R : Type} `{Scalar R}.

(** [torch.argmax(row)] / the index returned by [torch.max(a, dim=1)]:
    the first position holding the greatest value. *)
Fixpoint argmax_from (best : R) (besti i : nat) (l : list R) : nat :=
  match l with
  | [] => besti
  | v :: l =>
      if fgt v best then argmax_from v i (S i) l
      else argmax_from best besti (S i) l
  end.

Definition argmax (row : list R) : nat :=
  match row with
  | [] => 0%nat
  | v :: l => argmax_from v 0 1 l
  end.

(** [input.gather(1, index.unsqueeze(1))]: row [i] of the result is
    [[input[i][index[i]]]]; an index outside the row raises. *)
Fixpoint gather (input : list (list R)) (index : list nat)
  : option (list (list R)) :=
  match index, input with
  | [], _ => Some []
  | i :: index, row :: input =>
      v <- nth_error row i ;;
      rest <- gather input index ;;
      Some ([v] :: rest)
  | _ :: _, [] => None
  end.

(** Element-wise binary operation on two tensors of the same shape. *)
Definition zip_rows (f : R -> R -> R) (a b : list (list R)) : list (list R) :=
  map (fun '(ra, rb) => map (fun '(x, y) => f x y) (combine ra rb))
      (combine a b).

(** [torch.sum] of a vector, [torch.mean] of a matrix. *)
Definition tsum (l : list R) : R := fold_left fadd l (lit 0).

Definition tmean (a : list (list R)) : R :=
  fdiv (tsum (concat a)) (of_nat (length (concat a))).

(** [torch.max] / [torch.min] of a vector; empty input raises. *)
Definition tmax (l : list R) : option R :=
  match l with
  | [] => None
  | v :: l => Some (fold_left (fun b x => if fgt x b then x else b) l v)
  end.

Definition tmin (l : list R) : option R :=
  match l with
  | [] => None
  | v :: l => Some (fold_left (fun b x => if flt x b then x else b) l v)
  end.

(** [torch.nn.utils.clip_grad_value_(params, 1)] on one entry. *)
Definition clip_grad_value (g : R) : R :=
  if flt g (lit (-1 # 1)) then lit (-1 # 1)
  else if fgt g (lit (1 # 1)) then lit (1 # 1) else g.

(** [deque(maxlen=n).append(x)]. *)
Definition deque_append {A} (maxlen : nat) (d : list A) (x : A) : list A :=
  if (length d <? maxlen)%nat then d ++ [x] else tl (d ++ [x]).

End Tensors.

(** ** The helper classes of [utils] *)

Section Utils.
Context {R : Type} `{Scalar R}.
Context {Rng : Type} `{Random R Rng}.
Variable cfg : Config R.

(** Modelled from the spec: [MemoryStack.push] is not among the sources.
    Appends; once the store is full the oldest entry is evicted. *)
Definition push (m : MemoryStack R) (t : Transition R) : MemoryStack R :=
  {| capacity := capacity m;
     memory := if (Z.of_nat (length (memory m)) <? capacity m)%Z
               then memory m ++ [t]
               else tl (memory m ++ [t]) |}.

(** [k] uniform draws with replacement. *)
Fixpoint draw (k : nat) (m : list (Transition R)) (g : Rng)
  : option (list (Transition R) * Rng) :=
  match k with
  | O => Some ([], g)
  | S k =>
      let '(i, g) := rand_index (length m) g in
      t <- nth_error m (i mod length m) ;;
      '(rest, g) <- draw k m g ;;
      Some (t :: rest, g)
  end.

(** Modelled from the spec: [MemoryStack.sample] is not among the
    sources.  Fails when fewer than [k] transitions are stored. *)
Definition sample (m : MemoryStack R) (k : nat) (g : Rng)
  : option (list (Transition R) * Rng) :=
  if (length (memory m) <? k)%nat then None else draw k (memory m) g.

(** Modelled from the spec: [GreedyEpsilon.choose] is imported from
    [utils.dqn_utils], which is not among the sources.  Returns
    [(explore, next_epsilon)]; the decay is applied on every call. *)
Definition choose (eps : R) (g : Rng) : (bool * R) * Rng :=
  if DISABLE_RANDOM cfg then ((false, eps), g)
  else
    let '(u, g) := rand_uniform g in
    ((flt u eps, pymax (MIN_EPS cfg) (fsub eps (EPS_DECAY cfg))), g).

(** Modelled from the spec: [ModelAdjuster.soft_hard_copy] is imported
    from [utils.dqn_utils], which is not among the sources.  Returns the
    target parameters after the soft blend and the hard copy due at
    [step]. *)
Definition soft_hard_copy (step : Z) (actor_model pred_model : list R)
  : list R :=
  let pred_model :=
    if (step mod Z.pos (SOFT_COPY_INTERVAL cfg) =? 0)%Z
    then map (fun '(t, o) => fadd t (fmul (TAU cfg) (fsub o t)))
             (combine pred_model actor_model)
    else pred_model in
  if (step mod Z.pos (HARD_COPY_INTERVAL cfg) =? 0)%Z
  then actor_model else pred_model.

End Utils.

(** ** The script *)

Section Script.
Context {R : Type} {SR : Scalar R}.
Context {Env : Type} {EN : Environment R Env}.
Context {NN : Network R}.
Context {Opt : Type} {TO : Torch R Opt}.
Context {Rng : Type} {RD : Random R Rng}.
Variable cfg : Config R.

(** *** [CustomDQN.forward] *)

(** [torch.rand_like]: a fresh uniform draw for every entry. *)
Fixpoint rand_row (n : nat) (g : Rng) : list R * Rng :=
  match n with
  | O => ([], g)
  | S n =>
      let '(u, g) := rand_uniform g in
      let '(us, g) := rand_row n g in
      (u :: us, g)
  end.

Fixpoint rand_like (a : list (list R)) (g : Rng) : list (list R) * Rng :=
  match a with
  | [] => ([], g)
  | row :: a =>
      let '(r, g) := rand_row (length row) g in
      let '(rs, g) := rand_like a g in
      (r :: rs, g)
  end.

(** Returns [(a, b)] together with the new value of the global [eps]
    and the random state.  The layers are the collaborator [Network],
    applied here to rows of any width; the width [lin_1] accepts is the
    predicate [well_shaped] of the vocabulary below, a hypothesis of the
    statements that conclude that an iteration returns. *)
Definition forward (theta : list R) (x : list (list R))
    (real_actions : option (list nat)) (training : bool)
    (eps : R) (g : Rng)
  : list (list R) * list (list R) * R * Rng :=
  let a := map (fun xi => map (q_value theta xi) (seq 0 N_ACTIONS)) x in
  let '((explore, eps), g) := choose cfg eps g in
  let '(a, g) :=
    if negb training && explore
    then let '(u, g) := rand_like a g in
         (map (map (fun v => fsub (fmul v (lit (2 # 1))) (lit (1 # 1)))) u, g)
    else (a, g) in
  let chosen_actions := map argmax a in
  let chosen_actions :=
    match real_actions with
    | Some ra => ra
    | None => chosen_actions
    end in
  let b := map (fun '(xi, c) => next_state_head theta xi c)
               (combine x chosen_actions) in
  (a, b, eps, g).

(** *** [send_short_to_long_mem] and [affect_short_mem] *)

(** Popping from an empty [short_memory] raises. *)
Fixpoint send_short_to_long_mem (n : nat) (short_memory : list (mem_block R))
    (actor_mem : MemoryStack R) (multiplot : Multiplot R)
  : option (list (mem_block R) * MemoryStack R * Multiplot R) :=
  match n with
  | O => Some (short_memory, actor_mem, multiplot)
  | S n =>
      match short_memory with
      | [] => None
      | b :: short_memory =>
          let short_mem := Transition_of b in
          let multiplot := add_entry "real_reward" (reward short_mem) multiplot in
          let actor_mem :=
            if fgt (fabs (reward short_mem)) (MEMORY_REWARD_THRESH cfg)
            then push actor_mem short_mem
            else actor_mem in
          send_short_to_long_mem n short_memory actor_mem multiplot
      end
  end.

Definition add_reward (v : R) (b : mem_block R) : mem_block R :=
  {| mb_state := mb_state b; mb_action := mb_action b;
     mb_next_state := mb_next_state b;
     mb_reward := fadd (mb_reward b) v |}.

Fixpoint update_at {A} (f : A -> A) (k : nat) (l : list A) : list A :=
  match l, k with
  | [], _ => []
  | x :: l, O => f x :: l
  | x :: l, S k => x :: update_at f k l
  end.

(** [short_memory[-(i + 1)][3] += reward / (i + 1)], for [i] below the
    length. *)
Definition affect_one (reward : R) (short_memory : list (mem_block R))
    (i : nat) : list (mem_block R) :=
  update_at (add_reward (fdiv reward (of_nat (i + 1))))
            (length short_memory - (i + 1)) short_memory.

(** The second block of [affect_short_mem]: the back-propagation of a
    reward outside the thresholds. *)
Definition propagate_reward (reward : R) (short_memory : list (mem_block R))
  : list (mem_block R) :=
  if flt reward (fst (REWARD_AFFECT_THRESH cfg))
     || fgt reward (snd (REWARD_AFFECT_THRESH cfg))
  then fold_left (affect_one reward) (seq 0 (length short_memory))
                 short_memory
  else short_memory.

Definition affect_short_mem (reward : R) (short_memory : list (mem_block R))
    (actor_mem : MemoryStack R) (multiplot : Multiplot R)
  : option (list (mem_block R) * MemoryStack R * Multiplot R) :=
  '(short_memory, actor_mem, multiplot) <-
    (if (REWARD_AFFECT_PAST_N cfg <? length short_memory)%nat
     then send_short_to_long_mem 1 short_memory actor_mem multiplot
     else Some (short_memory, actor_mem, multiplot)) ;;
  Some (propagate_reward reward short_memory, actor_mem, multiplot).

(** *** Globals *)

Record World := {
  step : Z;
  eps : R;
  short_memory : list (mem_block R);
  actor_mem : MemoryStack R;
  obs_stack : list (list R);
  next_obs : list R;
  next_state_tensor : list R;
  cumulative_reward : R;
  actor_model : list R;
  pred_model : list R;
  actor_optimizer : Opt;
  env : Env;
  rng : Rng;
  multiplot : Multiplot R;
  saved : list (Z * list R)
}.

(** The globals written by [model_train]. *)
Definition set_trained (w : World) (theta : list R) (o : Opt) (e : R)
    (g : Rng) (m : Multiplot R) : World :=
  {| step := step w; eps := e; short_memory := short_memory w;
     actor_mem := actor_mem w; obs_stack := obs_stack w;
     next_obs := next_obs w; next_state_tensor := next_state_tensor w;
     cumulative_reward := cumulative_reward w; actor_model := theta;
     pred_model := pred_model w; actor_optimizer := o; env := env w;
     rng := g; multiplot := m; saved := saved w |}.

Definition set_multiplot (w : World) (m : Multiplot R) : World :=
  set_trained w (actor_model w) (actor_optimizer w) (eps w) (rng w) m.

Definition set_saved (w : World) (s : list (Z * list R)) : World :=
  {| step := step w; eps := eps w; short_memory := short_memory w;
     actor_mem := actor_mem w; obs_stack := obs_stack w;
     next_obs := next_obs w; next_state_tensor := next_state_tensor w;
     cumulative_reward := cumulative_reward w;
     actor_model := actor_model w; pred_model := pred_model w;
     actor_optimizer := actor_optimizer w; env := env w; rng := rng w;
     multiplot := multiplot w; saved := s |}.

(** The globals written at the end of a loop iteration. *)
Definition set_step_pred (w : World) (s : Z) (pred : list R) : World :=
  {| step := s; eps := eps w; short_memory := short_memory w;
     actor_mem := actor_mem w; obs_stack := obs_stack w;
     next_obs := next_obs w; next_state_tensor := next_state_tensor w;
     cumulative_reward := cumulative_reward w;
     actor_model := actor_model w; pred_model := pred;
     actor_optimizer := actor_optimizer w; env := env w; rng := rng w;
     multiplot := multiplot w; saved := saved w |}.

(** The globals [main] re-initialises before an epoch, and
    [cumulative_reward]. *)
Definition set_observation (w : World) (e : Env) (stack : list (list R))
    (obs : list R) (tensor : list R) (cum : R) : World :=
  {| step := step w; eps := eps w; short_memory := short_memory w;
     actor_mem := actor_mem w; obs_stack := stack; next_obs := obs;
     next_state_tensor := tensor; cumulative_reward := cum;
     actor_model := actor_model w; pred_model := pred_model w;
     actor_optimizer := actor_optimizer w; env := e; rng := rng w;
     multiplot := multiplot w; saved := saved w |}.

(** *** [model_train] *)

(** [reward_batch.unsqueeze(1) + (next_state_actions * GAMMA)]. *)
Definition td_target (reward_batch : list R)
    (next_state_actions : list (list R)) : list (list R) :=
  map (fun '(r, row) => map (fun q => fadd r (fmul q (GAMMA cfg))) row)
      (combine reward_batch next_state_actions).

(** The function [actor_loss.backward()] differentiates: the loss as a
    function of the online parameters.  Only the first forward pass is
    recorded; [target_output] was computed under [torch.no_grad()] and
    enters as a constant.  [gather] cannot fail here once it has passed
    at the current parameters: the check depends on shapes only. *)
Definition actor_objective (state_batch : list (list R))
    (action_batch : list nat) (next_state_batch target_output : list (list R))
    (eps : R) (g : Rng) (theta : list R) : R :=
  let '(state_values, next_state_guess, _, _) :=
    forward theta state_batch (Some action_batch) true eps g in
  let state_actions :=
    match gather state_values action_batch with
    | Some sa => sa
    | None => []
    end in
  fadd (HuberLoss state_actions target_output)
       (HuberLoss next_state_guess next_state_batch).

(** [model_train] up to and including [actor_loss.backward()]: the
    loss, the gradient left in [p.grad], and the new values of [eps],
    the random state and the telemetry. *)
Definition backward_pass (batch_size : nat) (w : World)
  : option (R * list R * R * Rng * Multiplot R) :=
  '(transitions, g0) <- sample (actor_mem w) batch_size (rng w) ;;
  let state_batch := map (@state R) transitions in
  let action_batch := map (@action R) transitions in
  let next_state_batch := map (@next_state R) transitions in
  let reward_batch := map (@reward R) transitions in
  let '(state_values, next_state_guess, eps1, g1) :=
    forward (actor_model w) state_batch (Some action_batch) true (eps w) g0 in
  let pred_diff := zip_rows fsub next_state_batch next_state_guess in
  let abs_pred_diff := map (map fabs) pred_diff in
  let mean_abs := tmean abs_pred_diff in
  let diff_from_mean_pred_diff :=
    map (map (fun v => fsub v mean_abs)) abs_pred_diff in
  let surprisal := map tsum diff_from_mean_pred_diff in
  let scaled_surprisal :=
    map (fun s => fmul (fadd s (SURPRISAL_BIAS cfg)) (SURPRISAL_WEIGHT cfg))
        surprisal in
  hi <- tmax scaled_surprisal ;;
  lo <- tmin scaled_surprisal ;;
  let multiplot :=
    add_entry "surprisal" (fmul (fsub hi lo) (lit (5 # 1))) (multiplot w) in
  state_actions <- gather state_values action_batch ;;
  (* with torch.no_grad(): *)
  let '(actor_next_preds, _, eps2, g2) :=
    forward (actor_model w) next_state_batch None true eps1 g1 in
  let actor_pred_max_a := map argmax actor_next_preds in
  let '(pred_out, _, eps3, g3) :=
    forward (pred_model w) next_state_batch None true eps2 g2 in
  next_state_actions <- gather pred_out actor_pred_max_a ;;
  let target_output := td_target reward_batch next_state_actions in
  let actor_loss :=
    fadd (HuberLoss state_actions target_output)
         (HuberLoss next_state_guess next_state_batch) in
  let grads :=
    autograd (actor_objective state_batch action_batch next_state_batch
                              target_output (eps w) g0)
             (actor_model w) in
  Some (actor_loss, grads, eps3, g3, multiplot).

(** The rest of [model_train]: gradient norm, clipping, optimizer step. *)
Definition model_train (batch_size : nat) (w : World) : option (R * World) :=
  '(actor_loss, grads, eps, g, multiplot) <- backward_pass batch_size w ;;
  let multiplot := add_entry "grad_norm" (grad_l2norm grads) multiplot in
  let grads := map clip_grad_value grads in
  let '(theta, opt) := RAdam_step (actor_optimizer w) (actor_model w) grads in
  Some (actor_loss, set_trained w theta opt eps g multiplot).

(** *** [try_learning] *)

(** [torch.save] is taken to return: the checkpoint is recorded in
    [saved].  Whether the call is reached is [save_due] of the vocabulary
    below. *)
Definition try_learning (w : World) : option World :=
  if negb (LEARNING_ENABLED cfg) then Some w
  else
    w <- (if (Pos.to_nat (BATCH_SIZE cfg) <? length (memory (actor_mem w)))%nat
          then
            if (step w mod Z.pos (TRAIN_INTERVAL cfg) =? 0)%Z
            then
              '(a_loss, w) <- model_train (Pos.to_nat (BATCH_SIZE cfg)) w ;;
              Some (set_multiplot w (add_entry "a_loss" a_loss (multiplot w)))
            else Some w
          else Some w) ;;
    Some (if (step w mod Z.pos (SAVE_INTERVAL cfg) =? 0)%Z
             && SAVING_ENABLED cfg
          then set_saved w (saved w ++ [(step w, actor_model w)])
          else w).

(** *** [model_infer] *)

(** One iteration of the [while not done] loop; returns the globals and
    [done]. *)
Definition model_infer_step (w : World) : option (World * bool) :=
  let state_tensor := next_state_tensor w in
  (* with torch.no_grad(): *)
  let '(out, _, eps, g) :=
    forward (actor_model w) [state_tensor] None false (eps w) (rng w) in
  row <- nth_error out 0 ;;
  o0 <- nth_error row 0 ;;
  o1 <- nth_error row 1 ;;
  o2 <- nth_error row 2 ;;
  o3 <- nth_error row 3 ;;
  let multiplot := add_entry "output_0" o0 (multiplot w) in
  let multiplot := add_entry "output_1" o1 multiplot in
  let multiplot := add_entry "output_2" o2 multiplot in
  let multiplot := add_entry "output_3" o3 multiplot in
  let max_a := argmax row in
  let '(next_obs, reward, terminated, truncated, env) :=
    env_step (env w) max_a in
  let multiplot := add_entry "natural_reward" reward multiplot in
  let cumulative_reward := fadd (cumulative_reward w) reward in
  let multiplot := add_entry "cumulative_reward" cumulative_reward multiplot in
  let '(next_obs, env, cumulative_reward, done) :=
    if terminated || truncated
    then let '(o, e) := env_reset env in (o, e, lit 0, true)
    else (next_obs, env, cumulative_reward, false) in
  '(short_memory, actor_mem, multiplot) <-
    affect_short_mem reward (short_memory w) (actor_mem w) multiplot ;;
  let obs_stack :=
    deque_append (Pos.to_nat (INPUT_N_STATES cfg)) (obs_stack w) next_obs in
  let next_state_tensor := concat obs_stack in
  let reward := to_float32 reward in
  let mem_block :=
    {| mb_state := state_tensor; mb_action := max_a;
       mb_next_state := next_state_tensor; mb_reward := reward |} in
  let short_memory := short_memory ++ [mem_block] in
  '(short_memory, actor_mem, multiplot) <-
    (if done
     then send_short_to_long_mem (length short_memory) short_memory
                                 actor_mem multiplot
     else Some (short_memory, actor_mem, multiplot)) ;;
  w <- try_learning
         {| step := step w; eps := eps; short_memory := short_memory;
            actor_mem := actor_mem; obs_stack := obs_stack;
            next_obs := next_obs; next_state_tensor := next_state_tensor;
            cumulative_reward := cumulative_reward;
            actor_model := actor_model w; pred_model := pred_model w;
            actor_optimizer := actor_optimizer w; env := env; rng := g;
            multiplot := multiplot; saved := saved w |} ;;
  let pred := soft_hard_copy cfg (step w) (actor_model w) (pred_model w) in
  Some (set_step_pred w (step w + 1)%Z pred, done).

Fixpoint model_infer_loop (fuel : nat) (w : World) : outcome World :=
  match fuel with
  | O => OutOfFuel
  | S fuel =>
      match model_infer_step w with
      | None => Raised
      | Some (w, done) =>
          if done then Returned w else model_infer_loop fuel w
      end
  end.

(** [done = False; cumulative_reward = 0; while not done: ...] *)
Definition model_infer (fuel : nat) (w : World) : outcome World :=
  model_infer_loop fuel
    (set_observation w (env w) (obs_stack w) (next_obs w)
                     (next_state_tensor w) (lit 0)).

(** *** [main] and the module-level initialisation *)

(** [env.reset()], then the observation stack is refilled with copies
    of the first observation. *)
Definition reinitialize (w : World) : World :=
  let '(next_obs, e) := env_reset (env w) in
  let obs_stack := repeat next_obs (Pos.to_nat (INPUT_N_STATES cfg)) in
  set_observation w e obs_stack next_obs (concat obs_stack)
                  (cumulative_reward w).

Fixpoint episodes (n fuel : nat) (w : World) : outcome World :=
  match n with
  | O => Returned w
  | S n =>
      match model_infer fuel w with
      | Returned w => episodes n fuel w
      | Raised => Raised
      | OutOfFuel => OutOfFuel
      end
  end.

(** One iteration of [for epoch in range(EPOCHS)]. *)
Definition epoch (fuel : nat) (w : World) : outcome World :=
  episodes (EPISODES_PER_EPOCH cfg) fuel (reinitialize w).

Fixpoint epochs (n fuel : nat) (w : World) : outcome World :=
  match n with
  | O => Returned w
  | S n =>
      match epoch fuel w with
      | Returned w => epochs n fuel w
      | Raised => Raised
      | OutOfFuel => OutOfFuel
      end
  end.

Definition main (fuel : nat) (w : World) : outcome World :=
  epochs (EPOCHS cfg) fuel w.

(** The globals after the module body has run, before [main()]:
    [step = 0], [eps = 2], an empty [short_memory], [MemoryStack(1000000)],
    [pred_model] loaded from [actor_model], the stack filled from the
    first reset. *)
Definition initial_world (theta : list R) (o : Opt) (e : Env) (g : Rng)
  : World :=
  let '(obs, e) := env_reset e in
  let stack := repeat obs (Pos.to_nat (INPUT_N_STATES cfg)) in
  {| step := 0; eps := eps_start; short_memory := [];
     actor_mem := {| capacity := 1000000; memory := [] |};
     obs_stack := stack; next_obs := obs;
     next_state_tensor := concat stack; cumulative_reward := lit 0;
     actor_model := theta; pred_model := theta; actor_optimizer := o;
     env := e; rng := g; multiplot := []; saved := [] |}.

End Script.

(** ** Instances for concrete runs *)

(** Exact rational arithmetic, results kept in lowest terms. *)
#[export] Instance Scalar_Q : Scalar Q := {|
  lit := Qred;
  fadd := fun a b => Qred (a + b);
  fsub := fun a b => Qred (a - b);
  fmul := fun a b => Qred (a * b);
  fdiv := fun a b => Qred (a / b);
  fabs := fun a => Qred (Qabs a);
  to_float32 := fun a => a;
  flt := fun a b => negb (Qle_bool b a);
  fle := Qle_bool;
  fle_not_gt := fun a b (E : Qle_bool a b = true) =>
    f_equal negb E
|}.

Module Toy.

(** An episode of [horizon] steps: the observation is the step count
    and the action taken, the reward is [0] until the last step, which
    terminates with reward [10]. *)
Definition horizon : nat := 3.

#[global] Instance gym : Environment Q nat := {|
  env_reset := fun _ => ([0; 0], 0%nat);
  env_step := fun n a =>
    let last := (horizon <=? S n)%nat in
    (([inject_Z (Z.of_nat (S n)); inject_Z (Z.of_nat a)],
      if last then 10 else 0, last, false), S n)
|}.

(** One parameter per action for the value head, and a next-state head
    that echoes its input. *)
#[global] Instance dqn : Network Q := {|
  q_value := fun theta _ a => nth a theta 0;
  next_state_head := fun _ x _ => x
|}.

(** [theta] with one added to its [i]-th entry. *)
Definition bump (i : nat) (theta : list Q) : list Q :=
  map (fun '(j, p) => if Nat.eqb i j then fadd p 1 else p)
      (combine (seq 0 (length theta)) theta).

(** Absolute-error criterion, forward differences of step one as
    gradient, and plain descent. *)
#[global] Instance autodiff : Torch Q unit := {|
  HuberLoss := fun a b =>
    tsum (List.concat (zip_rows (fun x y => fabs (fsub x y)) a b));
  autograd := fun f theta =>
    map (fun i => fsub (f (bump i theta)) (f theta)) (seq 0 (length theta));
  RAdam_step := fun o theta grads =>
    (map (fun '(p, g) => fsub p g) (combine theta grads), o);
  grad_l2norm := fun g => tsum (map fabs g)
|}.

(** A counter as random state: every uniform draw is [1/2], every index
    draw is the counter. *)
#[global] Instance counter : Random Q nat := {|
  rand_uniform := fun n => (1 # 2, S n);
  rand_index := fun _ n => (n, S n)
|}.

Definition config : Config Q := lunarlander.

Definition theta0 : list Q := [1 # 10; 3 # 10; 2 # 10; 0].

Definition start : World (Env := nat) (Opt := unit) (Rng := nat) :=
  initial_world config theta0 tt 0%nat 0%nat.

(** A stored transition with reward [r]. *)
Definition transition (r : Q) : Transition Q :=
  {| state := [0; 0]; action := 1; next_state := [1; 1]; reward := r |}.

Definition block (r : Q) : mem_block Q :=
  {| mb_state := [0; 0]; mb_action := 1; mb_next_state := [1; 1];
     mb_reward := r |}.

(** Globals at step 7 with [n] transitions in the replay store, [k]
    blocks in the shaping window, the episode [e] steps old and four
    distinct observations on the stack. *)
Definition late_stack : list (list Q) := [[5; 0]; [6; 0]; [7; 0]; [8; 0]].

Definition stocked (n k e : nat) : World (Env := nat) (Opt := unit) (Rng := nat) :=
  {| step := 7; eps := eps_start;
     short_memory := repeat (block 1) k;
     actor_mem := {| capacity := 1000000;
                     memory := repeat (transition 1) n |};
     obs_stack := late_stack; next_obs := [8; 0];
     next_state_tensor := List.concat late_stack;
     cumulative_reward := 0; actor_model := theta0;
     pred_model := [0; 1 # 10; 5 # 10; 0]; actor_optimizer := tt;
     env := e; rng := 0%nat; multiplot := []; saved := [] |}.

(** A store of two kinds of transitions, so that the prediction errors
    within a batch differ, and [stocked 0 0 0] with that store. *)
Definition mixed_store : MemoryStack Q :=
  {| capacity := 1000000;
     memory :=
       List.concat
         (repeat
            [transition 1;
             {| state := [0; 0]; action := 2; next_state := [4; 2];
                reward := 3 |}] 33) |}.

Definition mixed : World (Env := nat) (Opt := unit) (Rng := nat) :=
  {| step := 7; eps := eps_start; short_memory := [];
     actor_mem := mixed_store;
     obs_stack := late_stack; next_obs := [8; 0];
     next_state_tensor := List.concat late_stack;
     cumulative_reward := 0; actor_model := theta0;
     pred_model := [0; 1 # 10; 5 # 10; 0]; actor_optimizer := tt;
     env := 0%nat; rng := 0%nat; multiplot := []; saved := [] |}.

(** The script's constants with two epochs instead of 5000. *)
Definition brief : Config Q :=
  {| BATCH_SIZE := 64; INPUT_N_STATES := 4; TRAIN_INTERVAL := 1;
     SAVE_INTERVAL := 5000; EPOCHS := 2; EPISODES_PER_EPOCH := 1;
     SOFT_COPY_INTERVAL := 1; HARD_COPY_INTERVAL := 10000;
     GAMMA := 99 # 100; TAU := 1 # 10000; REWARD_AFFECT_PAST_N := 10;
     REWARD_AFFECT_THRESH := (-5 # 1, 5 # 1); MEMORY_REWARD_THRESH := 0;
     DISABLE_RANDOM := false; SAVING_ENABLED := true;
     LEARNING_ENABLED := true; EPS_DECAY := 1 # 1000;
     MIN_EPS := 1 # 20; SURPRISAL_BIAS := 0;
     SURPRISAL_WEIGHT := 1 # 1000 |}.

(** How many steps the toy episode has left. *)
Definition steps_left (n : nat) : nat := horizon - n.

Definition empty_store : MemoryStack Q :=
  {| capacity := 1000000; memory := [] |}.

(** The window of the specification's example, oldest block first. *)
Definition example_window : list (mem_block Q) :=
  [block (1 # 10); block (2 # 10); block (3 # 10)].

(** The globals [main] has reached from [start] when its twenty-third
    epoch opens: 22 episodes of three iterations have stored 66
    transitions, each state the concatenation of four observations of
    two entries. *)
Definition seasoned : World (Env := nat) (Opt := unit) (Rng := nat) :=
  match epochs config 22 4 start with
  | Returned w => reinitialize config w
  | _ => start
  end.

(** The script's constants with [SAVING_ENABLED = False]. *)
Definition quiet : Config Q :=
  {| BATCH_SIZE := 64; INPUT_N_STATES := 4; TRAIN_INTERVAL := 1;
     SAVE_INTERVAL := 5000; EPOCHS := 5000; EPISODES_PER_EPOCH := 1;
     SOFT_COPY_INTERVAL := 1; HARD_COPY_INTERVAL := 10000;
     GAMMA := 99 # 100; TAU := 1 # 10000; REWARD_AFFECT_PAST_N := 10;
     REWARD_AFFECT_THRESH := (-5 # 1, 5 # 1); MEMORY_REWARD_THRESH := 0;
     DISABLE_RANDOM := false; SAVING_ENABLED := false;
     LEARNING_ENABLED := true; EPS_DECAY := 1 # 1000;
     MIN_EPS := 1 # 20; SURPRISAL_BIAS := 0;
     SURPRISAL_WEIGHT := 1 # 1000 |}.

End Toy.

(** * Specification vocabulary *)

Section Vocabulary.
Context {R : Type} {SR : Scalar R}.
Context {Env : Type} {EN : Environment R Env}.
Context {NN : Network R}.
Context {Opt : Type} {TO : Torch R Opt}.
Context {Rng : Type} {RD : Random R Rng}.
Variable cfg : Config R.

(** The replay store's conditional admission, in the words of the
    specification: a transition is pushed only if the absolute value of
    its reward exceeds [MEMORY_REWARD_THRESH]; otherwise it is dropped. *)
Definition conditional_admission (am : MemoryStack R) (b : mem_block R)
  : MemoryStack R :=
  if fgt (fabs (mb_reward b)) (MEMORY_REWARD_THRESH cfg)
  then push am (Transition_of b)
  else am.

(** The telemetry entries a flush of the given blocks produces. *)
Definition real_rewards (l : list (mem_block R)) : Multiplot R :=
  map (fun b => ("real_reward"%string, mb_reward b)) l.

(** The decay of the exploration rate, in the words of the
    specification. *)
Definition next_epsilon (eps : R) : R :=
  if DISABLE_RANDOM cfg then eps
  else pymax (MIN_EPS cfg) (fsub eps (EPS_DECAY cfg)).

(** The random state after one call of [choose]. *)
Definition next_rng (g : Rng) : Rng :=
  if DISABLE_RANDOM cfg then g else snd (rand_uniform g).

(** The action values of one sample, one entry per action. *)
Definition q_row (theta x : list R) : list R :=
  map (q_value theta x) (seq 0 N_ACTIONS).

(** The Double-DQN target of one transition, in the words of the
    specification: the reward plus [GAMMA] times the target network's
    value of the action the online network ranks first in the next
    state. *)
Definition double_dqn_target (online target : list R) (t : Transition R)
  : R :=
  fadd (reward t)
       (fmul (q_value target (next_state t)
                      (argmax (q_row online (next_state t))))
             (GAMMA cfg)).

(** When the specification lets a training update run. *)
Definition training_due (w : @World R Env Opt Rng) : bool :=
  LEARNING_ENABLED cfg
  && (Pos.to_nat (BATCH_SIZE cfg) <? length (memory (actor_mem w)))%nat
  && (step w mod Z.pos (TRAIN_INTERVAL cfg) =? 0)%Z.

(** Every recorded action is an action of the environment; [gather]
    raises on any other index. *)
Definition actions_in_range (w : @World R Env Opt Rng) : Prop :=
  Forall (fun t => (action t < N_ACTIONS)%nat) (memory (actor_mem w))
  /\ Forall (fun b => (mb_action b < N_ACTIONS)%nat) (short_memory w).

(** The globals an execution can pass through: any number of iterations
    of the episode loop. *)
Inductive reaches : @World R Env Opt Rng -> @World R Env Opt Rng -> Prop :=
| reaches_here : forall w, reaches w w
| reaches_step : forall w w1 w2 done,
    reaches w w1 ->
    model_infer_step cfg w1 = Some (w2, done) ->
    reaches w w2.

(** The number of telemetry entries logged under [name]. *)
Definition count_entries (name : string) (m : Multiplot R) : nat :=
  length (filter (fun e => String.eqb (fst e) name) m).

(** The globals [main] passes through between iterations: the iterations
    of the episode loop, the start of an episode (where [model_infer]
    sets [cumulative_reward = 0]) and the re-initialisation that opens an
    epoch. *)
Inductive visits : @World R Env Opt Rng -> @World R Env Opt Rng -> Prop :=
| visits_here : forall w, visits w w
| visits_iteration : forall w w1 w2 done,
    visits w w1 ->
    model_infer_step cfg w1 = Some (w2, done) ->
    visits w w2
| visits_episode : forall w w1,
    visits w w1 ->
    visits w (set_observation w1 (env w1) (obs_stack w1) (next_obs w1)
                              (next_state_tensor w1) (lit 0))
| visits_epoch : forall w w1,
    visits w w1 ->
    visits w (reinitialize cfg w1).

(** Every observation the environment hands out, from [reset] or from
    [step], has [d] entries: [d] is [env.observation_space.shape[0]]. *)
Definition env_width (d : nat) : Prop :=
  (forall e : Env, length (fst (env_reset e)) = d)
  /\ (forall (e : Env) a,
        length (fst (fst (fst (fst (env_step e a))))) = d).

(** The globals fit the network, whose first layer is
    [nn.Linear(obs_dim * INPUT_N_STATES, 64)] and whose next-state head
    has as many outputs: the stack holds [INPUT_N_STATES] observations of
    [d] entries, and [next_state_tensor] and every state recorded in the
    shaping window or the replay store have [INPUT_N_STATES * d] entries.
    The layer raises on an input of any other width. *)
Definition well_shaped (d : nat) (w : @World R Env Opt Rng) : Prop :=
  let n := (Pos.to_nat (INPUT_N_STATES cfg) * d)%nat in
  length (obs_stack w) = Pos.to_nat (INPUT_N_STATES cfg)
  /\ Forall (fun o => length o = d) (obs_stack w)
  /\ length (next_state_tensor w) = n
  /\ Forall (fun b => length (mb_state b) = n /\ length (mb_next_state b) = n)
            (short_memory w)
  /\ Forall (fun t => length (state t) = n /\ length (next_state t) = n)
            (memory (actor_mem w)).

(** Whether [try_learning] reaches its [torch.save] on the current step. *)
Definition save_due (w : @World R Env Opt Rng) : bool :=
  LEARNING_ENABLED cfg
  && (step w mod Z.pos (SAVE_INTERVAL cfg) =? 0)%Z
  && SAVING_ENABLED cfg.

(** The configuration with other surprisal constants. *)
Definition with_surprisal (bias weight : R) : Config R :=
  {| BATCH_SIZE := BATCH_SIZE cfg; INPUT_N_STATES := INPUT_N_STATES cfg;
     TRAIN_INTERVAL := TRAIN_INTERVAL cfg;
     SAVE_INTERVAL := SAVE_INTERVAL cfg; EPOCHS := EPOCHS cfg;
     EPISODES_PER_EPOCH := EPISODES_PER_EPOCH cfg;
     SOFT_COPY_INTERVAL := SOFT_COPY_INTERVAL cfg;
     HARD_COPY_INTERVAL := HARD_COPY_INTERVAL cfg; GAMMA := GAMMA cfg;
     TAU := TAU cfg; REWARD_AFFECT_PAST_N := REWARD_AFFECT_PAST_N cfg;
     REWARD_AFFECT_THRESH := REWARD_AFFECT_THRESH cfg;
     MEMORY_REWARD_THRESH := MEMORY_REWARD_THRESH cfg;
     DISABLE_RANDOM := DISABLE_RANDOM cfg;
     SAVING_ENABLED := SAVING_ENABLED cfg;
     LEARNING_ENABLED := LEARNING_ENABLED cfg; EPS_DECAY := EPS_DECAY cfg;
     MIN_EPS := MIN_EPS cfg; SURPRISAL_BIAS := bias;
     SURPRISAL_WEIGHT := weight |}.

(** The telemetry without its surprisal entries. *)
Definition without_surprisal (m : Multiplot R) : Multiplot R :=
  filter (fun e => negb (String.eqb (fst e) "surprisal")) m.

End Vocabulary.

(** * The reward-shaping window *)

Section Window.
Context {R : Type} {SR : Scalar R}.
Variable cfg : Config R.

Lemma update_at_length {A} (f : A -> A) k l :
  length (update_at f k l) = length l.
Proof.
  revert k; induction l as [|x l IH]; intros [|k]; simpl; auto.
Qed.

Lemma nth_error_update_at {A} (f : A -> A) k l j :
  nth_error (update_at f k l) j =
  if (j =? k)%nat then option_map f (nth_error l j) else nth_error l j.
Proof.
  revert k j; induction l as [|x l IH]; intros k j.
  - destruct j, k; simpl; try reflexivity; now destruct (Nat.eqb j k).
  - destruct k as [|k], j as [|j]; simpl; try reflexivity.
    apply IH.
Qed.

Lemma affect_one_eq (r : R) l i :
  affect_one r l i =
  update_at (add_reward (fdiv r (of_nat (i + 1)))) (length l - (i + 1)) l.
Proof. reflexivity. Qed.

(** After the first [k] rounds of the loop of [affect_short_mem], the
    [k] most recent blocks have received their share. *)
Lemma affect_rounds (r : R) sm k :
  (k <= length sm)%nat ->
  let l := fold_left (affect_one r) (seq 0 k) sm in
  length l = length sm /\
  forall j,
    nth_error l j =
    if (length sm - k <=? j)%nat
    then option_map (add_reward (fdiv r (of_nat (length sm - j))))
                    (nth_error sm j)
    else nth_error sm j.
Proof.
  induction k as [|k IH]; intros Hk; cbn zeta.
  - split; [reflexivity|]. intros j. simpl.
    destruct (Nat.leb_spec (length sm - 0) j) as [Hj|Hj]; [|reflexivity].
    assert (E : nth_error sm j = None) by (apply nth_error_None; lia).
    now rewrite E.
  - destruct IH as [Hlen Hnth]; [lia|].
    rewrite seq_S, fold_left_app. simpl.
    rewrite affect_one_eq, update_at_length. split; [exact Hlen|].
    intros j. rewrite nth_error_update_at, Hlen, Hnth.
    destruct (Nat.eqb_spec j (length sm - (k + 1))) as [->|Hne].
    + replace (length sm - k <=? length sm - (k + 1))%nat with false
        by (symmetry; apply Nat.leb_gt; lia).
      replace (length sm - S k <=? length sm - (k + 1))%nat with true
        by (symmetry; apply Nat.leb_le; lia).
      replace (length sm - (length sm - (k + 1)))%nat with (k + 1)%nat by lia.
      reflexivity.
    + destruct (Nat.leb_spec (length sm - k) j), (Nat.leb_spec (length sm - S k) j);
        try reflexivity; lia.
Qed.

(** The whole loop, read from the most recent block backwards. *)
Lemma affect_all (r : R) sm :
  let l := fold_left (affect_one r) (seq 0 (length sm)) sm in
  length l = length sm /\
  forall i b, nth_error (rev sm) i = Some b ->
              nth_error (rev l) i = Some (add_reward (fdiv r (of_nat (i + 1))) b).
Proof.
  destruct (affect_rounds r sm (Nat.le_refl _)) as [Hlen Hnth].
  cbn zeta. split; [exact Hlen|]. intros i b.
  rewrite !nth_error_rev, Hlen.
  destruct (Nat.ltb_spec i (length sm)) as [Hi|Hi]; [|discriminate].
  rewrite Hnth. replace (length sm - length sm <=? length sm - S i)%nat with true
    by (symmetry; apply Nat.leb_le; lia).
  intros ->. simpl.
  replace (length sm - (length sm - S i))%nat with (i + 1)%nat by lia.
  reflexivity.
Qed.

(** A flush of [n] blocks hands the [n] oldest blocks, oldest first, to
    the conditional admission and logs their rewards. *)
Lemma send_short_to_long_mem_spec n : forall sm am plot,
  (n <= length sm)%nat ->
  send_short_to_long_mem cfg n sm am plot =
  Some (skipn n sm, fold_left (conditional_admission cfg) (firstn n sm) am,
        plot ++ real_rewards (firstn n sm)).
Proof.
  induction n as [|n IH]; intros sm am plot Hn; simpl.
  - now rewrite app_nil_r.
  - destruct sm as [|b sm]; [simpl in Hn; lia|].
    simpl in Hn. rewrite IH by lia. unfold add_entry. simpl.
    now rewrite <- app_assoc.
Qed.

(** The first block of [affect_short_mem] never raises: a window longer
    than [REWARD_AFFECT_PAST_N] is not empty. *)
Lemma evict_oldest sm am plot :
  (if (REWARD_AFFECT_PAST_N cfg <? length sm)%nat
   then send_short_to_long_mem cfg 1 sm am plot
   else Some (sm, am, plot)) =
  Some (if (REWARD_AFFECT_PAST_N cfg <? length sm)%nat
        then (skipn 1 sm, fold_left (conditional_admission cfg) (firstn 1 sm) am,
              plot ++ real_rewards (firstn 1 sm))
        else (sm, am, plot)).
Proof.
  destruct (Nat.ltb_spec (REWARD_AFFECT_PAST_N cfg) (length sm)) as [Hl|Hl];
    [|reflexivity].
  apply send_short_to_long_mem_spec. lia.
Qed.

Lemma propagate_reward_length r sm :
  length (propagate_reward cfg r sm) = length sm.
Proof.
  unfold propagate_reward. destruct (_ || _); [|reflexivity].
  apply affect_all.
Qed.

Lemma affect_short_mem_eq r sm am plot :
  affect_short_mem cfg r sm am plot =
  Some (if (REWARD_AFFECT_PAST_N cfg <? length sm)%nat
        then (propagate_reward cfg r (skipn 1 sm),
              fold_left (conditional_admission cfg) (firstn 1 sm) am,
              plot ++ real_rewards (firstn 1 sm))
        else (propagate_reward cfg r sm, am, plot)).
Proof.
  unfold affect_short_mem. rewrite evict_oldest.
  now destruct (_ <? _)%nat.
Qed.

(** C3.  A call of [affect_short_mem] first evicts the oldest block if
    the window is longer than [REWARD_AFFECT_PAST_N] (never otherwise),
    and never raises.  If the incoming reward is strictly below the low
    threshold or strictly above the high one, every block then in the
    window, however few, has [reward / (i + 1)] added to its reward,
    [i = 0] being the most recent block, and keeps its other fields; if
    the reward lies between the thresholds, bounds included, the blocks
    are left as they are. *)
Theorem affect_short_mem_propagates (r : R) sm am plot :
  exists sm1 am1 plot1 sm',
    (if (REWARD_AFFECT_PAST_N cfg <? length sm)%nat
     then send_short_to_long_mem cfg 1 sm am plot
     else Some (sm, am, plot)) = Some (sm1, am1, plot1)
    /\ ((length sm <= REWARD_AFFECT_PAST_N cfg)%nat ->
        sm1 = sm /\ am1 = am /\ plot1 = plot)
    /\ affect_short_mem cfg r sm am plot = Some (sm', am1, plot1)
    /\ length sm' = length sm1
    /\ (flt r (fst (REWARD_AFFECT_THRESH cfg)) = true
        \/ fgt r (snd (REWARD_AFFECT_THRESH cfg)) = true ->
        forall i b,
          nth_error (rev sm1) i = Some b ->
          nth_error (rev sm') i =
          Some {| mb_state := mb_state b; mb_action := mb_action b;
                  mb_next_state := mb_next_state b;
                  mb_reward := fadd (mb_reward b) (fdiv r (of_nat (i + 1))) |})
    /\ (fle (fst (REWARD_AFFECT_THRESH cfg)) r = true ->
        fle r (snd (REWARD_AFFECT_THRESH cfg)) = true ->
        sm' = sm1).
Proof.
  rewrite affect_short_mem_eq, evict_oldest.
  destruct (Nat.ltb_spec (REWARD_AFFECT_PAST_N cfg) (length sm)) as [Hl|Hl].
  - exists (skipn 1 sm), (fold_left (conditional_admission cfg) (firstn 1 sm) am),
      (plot ++ real_rewards (firstn 1 sm)), (propagate_reward cfg r (skipn 1 sm)).
    repeat split; try lia.
    + apply propagate_reward_length.
    + intros Hout i b Hb. unfold propagate_reward.
      replace (_ || _) with true
        by (symmetry; apply orb_true_iff; exact Hout).
      now apply affect_all.
    + intros Hlo Hhi. unfold propagate_reward, fgt.
      now rewrite (fle_not_gt _ _ Hlo), (fle_not_gt _ _ Hhi).
  - exists sm, am, plot, (propagate_reward cfg r sm).
    repeat split.
    + apply propagate_reward_length.
    + intros Hout i b Hb. unfold propagate_reward.
      replace (_ || _) with true
        by (symmetry; apply orb_true_iff; exact Hout).
      now apply affect_all.
    + intros Hlo Hhi. unfold propagate_reward, fgt.
      now rewrite (fle_not_gt _ _ Hlo), (fle_not_gt _ _ Hhi).
Qed.

(** C5.  A flush of [n] blocks never raises when the window holds that
    many; it removes the [n] oldest blocks and passes each, oldest
    first, through the conditional admission: the block is pushed to
    the replay store when the absolute value of its reward is strictly
    above [MEMORY_REWARD_THRESH], and otherwise dropped, leaving the
    store, and so its size, as it was. *)
Theorem flush_conditional_admission n sm am plot :
  (n <= length sm)%nat ->
  send_short_to_long_mem cfg n sm am plot =
  Some (skipn n sm, fold_left (conditional_admission cfg) (firstn n sm) am,
        plot ++ real_rewards (firstn n sm))
  /\ forall store b,
      (fgt (fabs (mb_reward b)) (MEMORY_REWARD_THRESH cfg) = true ->
       conditional_admission cfg store b = push store (Transition_of b))
      /\ (fgt (fabs (mb_reward b)) (MEMORY_REWARD_THRESH cfg) = false ->
          conditional_admission cfg store b = store)
      /\ (fle (fabs (mb_reward b)) (MEMORY_REWARD_THRESH cfg) = true ->
          conditional_admission cfg store b = store
          /\ length (memory (conditional_admission cfg store b)) =
             length (memory store)).
Proof.
  intros Hn. split; [now apply send_short_to_long_mem_spec|].
  intros store b. unfold conditional_admission.
  repeat split; try (intros ->; reflexivity);
    unfold fgt; rewrite (fle_not_gt _ _ H); reflexivity.
Qed.

End Window.

(** * The training step *)

Section Training.
Context {R : Type} {SR : Scalar R}.
Context {Env : Type} {EN : Environment R Env}.
Context {NN : Network R}.
Context {Opt : Type} {TO : Torch R Opt}.
Context {Rng : Type} {RD : Random R Rng}.
Variable cfg : Config R.

Local Abbreviation World := (@World R Env Opt Rng).

Lemma choose_eq eps g :
  exists explore, choose cfg eps g = ((explore, next_epsilon cfg eps), next_rng cfg g).
Proof.
  unfold choose, next_epsilon, next_rng.
  destruct (DISABLE_RANDOM cfg); [now exists false|].
  destruct (rand_uniform g) as [u g']. now eexists.
Qed.

(** In training mode the exploration draw is made and dropped: the
    outputs are those of the two heads, [eps] has decayed once. *)
Lemma forward_training theta x real_actions eps g :
  forward cfg theta x real_actions true eps g =
  (map (q_row theta) x,
   map (fun '(xi, c) => next_state_head theta xi c)
       (combine x (match real_actions with
                   | Some ra => ra
                   | None => map argmax (map (q_row theta) x)
                   end)),
   next_epsilon cfg eps, next_rng cfg g).
Proof.
  unfold forward. destruct (choose_eq eps g) as [explore ->].
  reflexivity.
Qed.

Lemma argmax_from_lt (l : list R) : forall best besti i,
  (besti < i)%nat -> (argmax_from best besti i l < i + length l)%nat.
Proof.
  induction l as [|v l IH]; intros best besti i Hi; simpl; [lia|].
  destruct (fgt v best).
  - specialize (IH v i (S i)). lia.
  - specialize (IH best besti (S i)). lia.
Qed.

Lemma argmax_lt (row : list R) :
  row <> [] -> (argmax row < length row)%nat.
Proof.
  destruct row as [|v l]; [congruence|]. intros _. simpl.
  pose proof (argmax_from_lt l v (besti := 0) (i := 1)). lia.
Qed.

Lemma argmax_q_row theta x : (argmax (q_row theta x) < N_ACTIONS)%nat.
Proof.
  pose proof (@argmax_lt (q_row theta x)) as H.
  unfold q_row in *. rewrite length_map, length_seq in H.
  apply H. discriminate.
Qed.

Lemma nth_error_q_row theta x a :
  (a < N_ACTIONS)%nat -> nth_error (q_row theta x) a = Some (q_value theta x a).
Proof.
  intros Ha. unfold q_row.
  rewrite nth_error_map, nth_error_seq.
  apply Nat.ltb_lt in Ha. now rewrite Ha.
Qed.

(** [gather] on the action values of a batch, at in-range actions. *)
Lemma gather_q_rows {A} theta (f : A -> list R) (a : A -> nat) (ts : list A) :
  Forall (fun t => (a t < N_ACTIONS)%nat) ts ->
  gather (map (q_row theta) (map f ts)) (map a ts) =
  Some (map (fun t => [q_value theta (f t) (a t)]) ts).
Proof.
  induction 1 as [|t ts Ht Hts IH]; simpl; [reflexivity|].
  now rewrite nth_error_q_row, IH.
Qed.

Lemma map_combine_maps {A B C D} (h : B -> C -> D) (f : A -> B) (g : A -> C) ts :
  map (fun '(x, c) => h x c) (combine (map f ts) (map g ts)) =
  map (fun t => h (f t) (g t)) ts.
Proof. induction ts; simpl; congruence. Qed.

Lemma tmax_some (l : list R) : l <> [] -> exists v, tmax l = Some v.
Proof. destruct l; [congruence|]. intros _. simpl. now eexists. Qed.

Lemma tmin_some (l : list R) : l <> [] -> exists v, tmin l = Some v.
Proof. destruct l; [congruence|]. intros _. simpl. now eexists. Qed.

(** Drawing never fails on a non-empty store and returns stored
    transitions only. *)
Lemma draw_spec k : forall (m : list (Transition R)) (g : Rng),
  (k = 0 \/ m <> [])%nat ->
  exists ts g', draw k m g = Some (ts, g') /\ length ts = k
                /\ Forall (fun t => In t m) ts.
Proof.
  induction k as [|k IH]; intros m g Hm; simpl.
  - exists [], g. repeat split. constructor.
  - destruct Hm as [Hm|Hm]; [discriminate|].
    destruct (rand_index (length m) g) as [i g1].
    assert (Hi : (i mod length m < length m)%nat)
      by (apply Nat.mod_upper_bound; destruct m; simpl; congruence).
    destruct (nth_error m (i mod length m)) as [t|] eqn:Et;
      [|apply nth_error_None in Et; lia].
    destruct (IH m g1 (or_intror Hm)) as (ts & g' & -> & Hlen & Hin).
    exists (t :: ts), g'. repeat split; [simpl; congruence|].
    constructor; [now apply nth_error_In in Et|exact Hin].
Qed.

Lemma sample_spec (m : MemoryStack R) k g :
  (k <= length (memory m))%nat ->
  exists ts g', sample m k g = Some (ts, g') /\ length ts = k
                /\ Forall (fun t => In t (memory m)) ts.
Proof.
  intros Hk. unfold sample.
  replace (length (memory m) <? k)%nat with false
    by (symmetry; apply Nat.ltb_ge; exact Hk).
  apply draw_spec. destruct k; [now left|right].
  destruct (memory m); simpl in *; [lia|congruence].
Qed.

(** What [actor_loss.backward()] differentiates, written out: the online
    parameters enter through the two heads on the recorded states and
    actions only; the target is a constant. *)
Lemma actor_objective_eq (ts : list (Transition R)) target eps g theta :
  Forall (fun t => (action t < N_ACTIONS)%nat) ts ->
  actor_objective cfg (map (@state R) ts) (map (@action R) ts)
                  (map (@next_state R) ts) target eps g theta =
  fadd (HuberLoss (map (fun t => [q_value theta (state t) (action t)]) ts)
                  target)
       (HuberLoss (map (fun t => next_state_head theta (state t) (action t)) ts)
                  (map (@next_state R) ts)).
Proof.
  intros Hts. unfold actor_objective. rewrite forward_training.
  rewrite (gather_q_rows theta _ _ Hts), map_combine_maps. reflexivity.
Qed.

Lemma td_target_eq (online target : list R) (ts : list (Transition R)) :
  td_target cfg (map (@reward R) ts)
            (map (fun t => [q_value target (next_state t)
                                    (argmax (q_row online (next_state t)))]) ts) =
  map (fun t => [double_dqn_target cfg online target t]) ts.
Proof.
  induction ts as [|t ts IH]; [reflexivity|].
  unfold td_target in *. simpl. f_equal. exact IH.
Qed.

(** The selection step of the target: the indices handed to [gather] on
    the target network's output are the arg-max of the online network's
    output on the same next states. *)
Lemma gather_selected (online target : list R) (ts : list (Transition R)) :
  gather (map (q_row target) (map (@next_state R) ts))
         (map argmax (map (q_row online) (map (@next_state R) ts))) =
  Some (map (fun t => [q_value target (next_state t)
                               (argmax (q_row online (next_state t)))]) ts).
Proof.
  rewrite !map_map.
  rewrite <- (map_map (@next_state R) (q_row target)).
  apply (gather_q_rows target (@next_state R)
           (fun t => argmax (q_row online (next_state t)))).
  apply Forall_forall. intros t _. apply argmax_q_row.
Qed.

Lemma backward_pass_spec bs (w : World) :
  (0 < bs)%nat ->
  (bs <= length (memory (actor_mem w)))%nat ->
  Forall (fun t => (action t < N_ACTIONS)%nat) (memory (actor_mem w)) ->
  exists ts g0 v,
    sample (actor_mem w) bs (rng w) = Some (ts, g0)
    /\ length ts = bs
    /\ Forall (fun t => In t (memory (actor_mem w))) ts
    /\ backward_pass cfg bs w =
       let target :=
         map (fun t => [double_dqn_target cfg (actor_model w) (pred_model w) t])
             ts in
       let objective :=
         actor_objective cfg (map (@state R) ts) (map (@action R) ts)
                         (map (@next_state R) ts) target (eps w) g0 in
       Some (objective (actor_model w), autograd objective (actor_model w),
             next_epsilon cfg (next_epsilon cfg (next_epsilon cfg (eps w))),
             next_rng cfg (next_rng cfg (next_rng cfg g0)),
             add_entry "surprisal" v (multiplot w)).
Proof.
  intros Hpos Hsize Hrange.
  destruct (sample_spec (actor_mem w) (rng w) Hsize) as (ts & g0 & Es & Hlen & Hin).
  assert (Hts : Forall (fun t => (action t < N_ACTIONS)%nat) ts).
  { apply Forall_forall. intros t Ht.
    rewrite Forall_forall in Hin, Hrange. auto. }
  unfold backward_pass. rewrite Es. cbv beta iota zeta.
  rewrite !forward_training. cbv beta iota zeta.
  match goal with
  | |- context [tmax ?l] =>
      assert (Hne : l <> []);
      [ intros E; apply (f_equal (@length R)) in E; revert E;
        unfold zip_rows;
        repeat (rewrite ?length_map, ?length_combine); rewrite Hlen;
        simpl; lia
      | destruct (tmax_some Hne) as [hi ->];
        destruct (tmin_some Hne) as [lo ->] ]
  end.
  rewrite (gather_q_rows (actor_model w) _ _ Hts).
  rewrite gather_selected, td_target_eq.
  exists ts, g0, (fmul (fsub hi lo) (lit (5 # 1))).
  repeat split; try assumption.
  cbv zeta. rewrite (actor_objective_eq _ _ _ _ Hts), map_combine_maps.
  reflexivity.
Qed.

Lemma model_train_spec bs (w : World) :
  (0 < bs)%nat ->
  (bs <= length (memory (actor_mem w)))%nat ->
  Forall (fun t => (action t < N_ACTIONS)%nat) (memory (actor_mem w)) ->
  exists ts g0 v,
    sample (actor_mem w) bs (rng w) = Some (ts, g0)
    /\ length ts = bs
    /\ Forall (fun t => In t (memory (actor_mem w))) ts
    /\ model_train cfg bs w =
       let target :=
         map (fun t => [double_dqn_target cfg (actor_model w) (pred_model w) t])
             ts in
       let objective :=
         actor_objective cfg (map (@state R) ts) (map (@action R) ts)
                         (map (@next_state R) ts) target (eps w) g0 in
       let grads := autograd objective (actor_model w) in
       let update :=
         RAdam_step (actor_optimizer w) (actor_model w)
                    (map clip_grad_value grads) in
       Some (objective (actor_model w),
             set_trained w (fst update) (snd update)
               (next_epsilon cfg (next_epsilon cfg (next_epsilon cfg (eps w))))
               (next_rng cfg (next_rng cfg (next_rng cfg g0)))
               (add_entry "grad_norm" (grad_l2norm grads)
                          (add_entry "surprisal" v (multiplot w)))).
Proof.
  intros Hpos Hsize Hrange.
  destruct (backward_pass_spec w Hpos Hsize Hrange)
    as (ts & g0 & v & Es & Hlen & Hin & Eb).
  exists ts, g0, v. repeat split; try assumption.
  unfold model_train. rewrite Eb. cbv beta iota zeta.
  now destruct (RAdam_step _ _ _).
Qed.

(** [model_train] writes the online parameters, the optimizer state,
    [eps], the random state and the telemetry, and nothing else. *)
Lemma model_train_frame bs (w w' : World) loss :
  model_train cfg bs w = Some (loss, w') ->
  exists theta o e g m, w' = set_trained w theta o e g m.
Proof.
  unfold model_train. destruct (backward_pass cfg bs w) as [[[[[l gr] e] g] m]|];
    [|discriminate].
  destruct (RAdam_step _ _ _) as [theta o]. intros [= <- <-].
  now eexists _, _, _, _, _.
Qed.

(** [try_learning] leaves every global but those of [model_train] and the
    saved checkpoints alone. *)
Lemma try_learning_frame (w w' : World) :
  try_learning cfg w = Some w' ->
  step w' = step w /\ short_memory w' = short_memory w
  /\ actor_mem w' = actor_mem w /\ obs_stack w' = obs_stack w
  /\ next_obs w' = next_obs w /\ next_state_tensor w' = next_state_tensor w
  /\ cumulative_reward w' = cumulative_reward w
  /\ pred_model w' = pred_model w /\ env w' = env w.
Proof.
  unfold try_learning.
  destruct (negb (LEARNING_ENABLED cfg)); [now intros [= <-]|].
  destruct (_ <? _)%nat; [destruct (_ =? _)%Z|].
  - destruct (model_train _ _ _) as [[loss w1]|] eqn:Et; [|discriminate].
    destruct (model_train_frame _ _ Et) as (theta & o & e & g & m & ->).
    destruct (_ && _); intros [= <-]; now repeat split.
  - destruct (_ && _); intros [= <-]; now repeat split.
  - destruct (_ && _); intros [= <-]; now repeat split.
Qed.

(** C1.  When the replay store holds the batch, [model_train] returns,
    and: the indices with which the target network's output on the
    next-state batch is read are the arg-max indices of the online
    network's forward pass on that same batch; the target of a sampled
    transition is its reward plus [GAMMA] times the target network's value
    of that action; the function handed to [backward] depends on the
    online parameters through the two heads on the recorded states and
    actions only, the target being the same constant for every parameter
    vector; the optimizer step is taken on the online parameters and the
    target network's parameters are left as they were. *)
Theorem double_dqn_target_by_construction bs (w : World) :
  (0 < bs)%nat ->
  (bs <= length (memory (actor_mem w)))%nat ->
  Forall (fun t => (action t < N_ACTIONS)%nat) (memory (actor_mem w)) ->
  exists ts g0 loss w' objective,
    sample (actor_mem w) bs (rng w) = Some (ts, g0)
    /\ model_train cfg bs w = Some (loss, w')
    /\ (forall e g e' g',
          gather
            (fst (fst (fst (forward cfg (pred_model w)
                                    (map (@next_state R) ts) None true e g))))
            (map argmax
               (fst (fst (fst (forward cfg (actor_model w)
                                       (map (@next_state R) ts) None true
                                       e' g'))))) =
          Some (map (fun t =>
                       [q_value (pred_model w) (next_state t)
                                (argmax (q_row (actor_model w) (next_state t)))])
                    ts))
    /\ (forall theta,
          objective theta =
          fadd (HuberLoss
                  (map (fun t => [q_value theta (state t) (action t)]) ts)
                  (map (fun t =>
                          [fadd (reward t)
                                (fmul (q_value (pred_model w) (next_state t)
                                         (argmax (q_row (actor_model w)
                                                        (next_state t))))
                                      (GAMMA cfg))]) ts))
               (HuberLoss
                  (map (fun t => next_state_head theta (state t) (action t)) ts)
                  (map (@next_state R) ts)))
    /\ loss = objective (actor_model w)
    /\ (actor_model w', actor_optimizer w') =
       RAdam_step (actor_optimizer w) (actor_model w)
                  (map clip_grad_value (autograd objective (actor_model w)))
    /\ pred_model w' = pred_model w.
Proof.
  intros Hpos Hsize Hrange.
  destruct (model_train_spec w Hpos Hsize Hrange)
    as (ts & g0 & v & Es & Hlen & Hin & Et).
  assert (Hts : Forall (fun t => (action t < N_ACTIONS)%nat) ts).
  { apply Forall_forall. intros t Ht.
    rewrite Forall_forall in Hin, Hrange. auto. }
  cbv zeta in Et.
  set (objective :=
         actor_objective cfg (map (@state R) ts) (map (@action R) ts)
           (map (@next_state R) ts)
           (map (fun t => [double_dqn_target cfg (actor_model w) (pred_model w) t])
                ts) (eps w) g0) in Et.
  eexists ts, g0, _, _, objective.
  split; [exact Es|]. split; [exact Et|]. split; [|split; [|split; [|split]]].
  - intros e g e' g'. rewrite !forward_training. simpl fst.
    apply gather_selected.
  - intros theta. unfold objective.
    now rewrite (actor_objective_eq _ _ _ _ Hts).
  - reflexivity.
  - simpl. now destruct (RAdam_step _ _ _).
  - reflexivity.
Qed.

Lemma without_surprisal_add (v : R) (m : Multiplot R) :
  without_surprisal (add_entry "surprisal" v m) = without_surprisal m.
Proof.
  unfold without_surprisal, add_entry. rewrite filter_app. simpl.
  apply app_nil_r.
Qed.

Lemma without_surprisal_grad_norm (v : R) (m : Multiplot R) :
  without_surprisal (add_entry "grad_norm" v m) =
  add_entry "grad_norm" v (without_surprisal m).
Proof.
  unfold without_surprisal, add_entry. now rewrite filter_app.
Qed.

(** The surprisal constants reach [backward_pass] in the logged entry
    only. *)
Lemma backward_pass_surprisal bias weight bs (w : World) :
  match backward_pass cfg bs w,
        backward_pass (with_surprisal cfg bias weight) bs w with
  | Some (l1, gr1, e1, g1, m1), Some (l2, gr2, e2, g2, m2) =>
      l1 = l2 /\ gr1 = gr2 /\ e1 = e2 /\ g1 = g2
      /\ without_surprisal m1 = without_surprisal m2
  | None, None => True
  | _, _ => False
  end.
Proof.
  unfold backward_pass.
  destruct (sample (actor_mem w) bs (rng w)) as [[ts g0]|]; [|exact I].
  change (forward (with_surprisal cfg bias weight)) with (forward cfg).
  change (td_target (with_surprisal cfg bias weight)) with (td_target cfg).
  change (actor_objective (with_surprisal cfg bias weight))
    with (actor_objective cfg).
  destruct (forward cfg (actor_model w) (map (@state R) ts) _ true (eps w) g0)
    as [[[sv nsg] e1] g1].
  cbv beta iota zeta.
  match goal with
  | |- context [map ?f (map tsum ?x)] => destruct (map tsum x) as [|s0 ss]
  end; [exact I|].
  simpl tmax. simpl tmin. cbv beta iota.
  destruct (gather sv _) as [sa|]; [|exact I].
  destruct (forward cfg (actor_model w) _ None true e1 g1) as [[[anp x2] e2] g2].
  destruct (forward cfg (pred_model w) _ None true e2 g2) as [[[po x3] e3] g3].
  destruct (gather po _) as [nsa|]; [|exact I].
  repeat split. now rewrite !without_surprisal_add.
Qed.

(** C9.  Two runs of the training step from the same globals, under
    configurations that differ in [SURPRISAL_BIAS] and [SURPRISAL_WEIGHT]
    only, raise together or return together; when they return, the loss,
    the gradient left by [backward], and every global after the optimizer
    step (online and target parameters, optimizer state, [eps], random
    state, replay store and shaping window with their rewards) are the
    same, and the telemetry differs in its surprisal entry at most. *)
Theorem surprisal_reaches_telemetry_only bias weight bs (w : World) :
  match backward_pass cfg bs w,
        backward_pass (with_surprisal cfg bias weight) bs w with
  | Some (l1, gr1, e1, g1, m1), Some (l2, gr2, e2, g2, m2) =>
      l1 = l2 /\ gr1 = gr2
  | None, None => True
  | _, _ => False
  end
  /\ match model_train cfg bs w,
           model_train (with_surprisal cfg bias weight) bs w with
     | Some (l1, w1), Some (l2, w2) =>
         l1 = l2
         /\ set_multiplot w1 (without_surprisal (multiplot w1)) =
            set_multiplot w2 (without_surprisal (multiplot w2))
     | None, None => True
     | _, _ => False
     end.
Proof.
  pose proof (backward_pass_surprisal bias weight bs w) as Hb.
  unfold model_train.
  destruct (backward_pass cfg bs w) as [[[[[l1 gr1] e1] g1] m1]|],
           (backward_pass (with_surprisal cfg bias weight) bs w)
             as [[[[[l2 gr2] e2] g2] m2]|]; try contradiction; [|now split].
  destruct Hb as (-> & -> & -> & -> & Hm).
  split; [now split|].
  destruct (RAdam_step _ _ _) as [theta o]. split; [reflexivity|].
  unfold set_multiplot, set_trained. simpl.
  now rewrite !without_surprisal_grad_norm, Hm.
Qed.

(** C6.  [try_learning] never raises on a store of in-range actions.  A
    training update runs exactly when learning is enabled, the replay
    store holds strictly more than [BATCH_SIZE] transitions and the step
    count is a multiple of [TRAIN_INTERVAL]: then [model_train] returns
    and its loss is logged; otherwise, and so whenever the store holds
    [BATCH_SIZE] transitions or fewer, the call changes neither network,
    nor the optimizer, the exploration rate, the random state or the
    telemetry.  The replay store is never changed, and nothing is
    remembered of a skipped call: the condition is evaluated afresh on
    the globals of every call. *)
Theorem try_learning_when_due (w : World) :
  Forall (fun t => (action t < N_ACTIONS)%nat) (memory (actor_mem w)) ->
  training_due cfg w =
    LEARNING_ENABLED cfg
    && (Pos.to_nat (BATCH_SIZE cfg) <? length (memory (actor_mem w)))%nat
    && (step w mod Z.pos (TRAIN_INTERVAL cfg) =? 0)%Z
  /\ ((length (memory (actor_mem w)) <= Pos.to_nat (BATCH_SIZE cfg))%nat ->
      training_due cfg w = false)
  /\ exists w',
      try_learning cfg w = Some w'
      /\ actor_mem w' = actor_mem w
      /\ pred_model w' = pred_model w
      /\ (training_due cfg w = true ->
          exists loss w1,
            model_train cfg (Pos.to_nat (BATCH_SIZE cfg)) w = Some (loss, w1)
            /\ actor_model w' = actor_model w1
            /\ actor_optimizer w' = actor_optimizer w1
            /\ multiplot w' = add_entry "a_loss" loss (multiplot w1))
      /\ (training_due cfg w = false ->
          actor_model w' = actor_model w
          /\ actor_optimizer w' = actor_optimizer w
          /\ eps w' = eps w /\ rng w' = rng w
          /\ multiplot w' = multiplot w).
Proof.
  intros Hrange. split; [reflexivity|]. split.
  { intros Hle. unfold training_due.
    replace (_ <? _)%nat with false by (symmetry; apply Nat.ltb_ge; exact Hle).
    now rewrite andb_false_r. }
  unfold training_due, try_learning.
  destruct (LEARNING_ENABLED cfg); simpl.
  2:{ exists w. repeat split; try reflexivity. discriminate. }
  destruct (Nat.ltb_spec (Pos.to_nat (BATCH_SIZE cfg))
                         (length (memory (actor_mem w)))) as [Hlt|Hge]; simpl.
  2:{ destruct (_ && _); eexists; repeat split; try reflexivity; discriminate. }
  destruct (step w mod Z.pos (TRAIN_INTERVAL cfg) =? 0)%Z.
  2:{ destruct (_ && _); eexists; repeat split; try reflexivity; discriminate. }
  assert (Hpos : (0 < Pos.to_nat (BATCH_SIZE cfg))%nat) by lia.
  destruct (model_train_spec w Hpos (Nat.lt_le_incl _ _ Hlt) Hrange)
    as (ts & g0 & v & _ & _ & _ & ->).
  cbv beta iota zeta.
  destruct (_ && _); eexists; (split; [reflexivity|]);
    repeat split; try discriminate; intros _; now eexists _, _.
Qed.

End Training.

(** * The episode loop *)

Section Loop.
Context {R : Type} {SR : Scalar R}.
Context {Env : Type} {EN : Environment R Env}.
Context {NN : Network R}.
Context {Opt : Type} {TO : Torch R Opt}.
Context {Rng : Type} {RD : Random R Rng}.
Variable cfg : Config R.

Local Abbreviation World := (@World R Env Opt Rng).

(** Every call of [forward], in either mode, decays [eps] once. *)
Lemma forward_eps theta x real_actions training eps g :
  snd (fst (forward cfg theta x real_actions training eps g)) =
  next_epsilon cfg eps.
Proof.
  unfold forward. destruct (choose_eq cfg eps g) as [explore ->].
  destruct (negb training && explore); [|reflexivity].
  now destruct (rand_like _ _).
Qed.

(** The iteration of [model_infer] read back from its result: the
    forward pass, the environment step, the reset on episode end, the
    shaping, the new block, the terminal flush, the training attempt and
    the synchronisation, in the order of the script. *)
Lemma model_infer_step_inv (w w' : World) done :
  model_infer_step cfg w = Some (w', done) ->
  exists out b e1 g1 row obs r term trunc env1 pl0 sm1 am1 pl1 sm2 am2 pl2 w2,
    forward cfg (actor_model w) [next_state_tensor w] None false (eps w) (rng w)
      = (out, b, e1, g1)
    /\ nth_error out 0 = Some row
    /\ env_step (env w) (argmax row) = (obs, r, term, trunc, env1)
    /\ done = term || trunc
    /\ affect_short_mem cfg r (short_memory w) (actor_mem w) pl0
       = Some (sm1, am1, pl1)
    /\ let obs' := if done then fst (env_reset env1) else obs in
       let env2 := if done then snd (env_reset env1) else env1 in
       let stack :=
         deque_append (Pos.to_nat (INPUT_N_STATES cfg)) (obs_stack w) obs' in
       let blk :=
         {| mb_state := next_state_tensor w; mb_action := argmax row;
            mb_next_state := concat stack; mb_reward := to_float32 r |} in
       (if done
        then send_short_to_long_mem cfg (length (sm1 ++ [blk])) (sm1 ++ [blk])
                                    am1 pl1
        else Some (sm1 ++ [blk], am1, pl1)) = Some (sm2, am2, pl2)
       /\ try_learning cfg
            {| step := step w; eps := e1; short_memory := sm2;
               actor_mem := am2; obs_stack := stack; next_obs := obs';
               next_state_tensor := concat stack;
               cumulative_reward :=
                 if done then lit 0 else fadd (cumulative_reward w) r;
               actor_model := actor_model w; pred_model := pred_model w;
               actor_optimizer := actor_optimizer w; env := env2; rng := g1;
               multiplot := pl2; saved := saved w |} = Some w2
       /\ w' = set_step_pred w2 (step w2 + 1)%Z
                (soft_hard_copy cfg (step w2) (actor_model w2) (pred_model w2)).
Proof.
  unfold model_infer_step. intros H.
  destruct (forward cfg (actor_model w) _ None false (eps w) (rng w))
    as [[[out b] e1] g1] eqn:Ef.
  destruct (nth_error out 0) as [row|] eqn:Erow; [|discriminate].
  destruct (nth_error row 0) as [o0|]; [|discriminate].
  destruct (nth_error row 1) as [o1|]; [|discriminate].
  destruct (nth_error row 2) as [o2|]; [|discriminate].
  destruct (nth_error row 3) as [o3|]; [|discriminate].
  destruct (env_step (env w) (argmax row)) as [[[[obs r] term] trunc] env1] eqn:Ee.
  destruct (term || trunc) eqn:Ed.
  - destruct (env_reset env1) as [o e] eqn:Er.
    destruct (affect_short_mem cfg r _ _ _) as [[[sm1 am1] pl1]|] eqn:Ea;
      [|discriminate].
    destruct (send_short_to_long_mem cfg _ _ _ _) as [[[sm2 am2] pl2]|] eqn:Es;
      [|discriminate].
    destruct (try_learning cfg _) as [w2|] eqn:Et; [|discriminate].
    injection H as <- <-.
    eexists out, b, e1, g1, row, obs, r, term, trunc, env1, _, sm1, am1, pl1,
      sm2, am2, pl2, w2.
    do 5 (split; [first [exact Ea | exact Erow | exact Ee | reflexivity
                        | now rewrite Ed]|]).
    cbv beta iota zeta. rewrite Er. simpl fst. simpl snd.
    split; [exact Es|]. split; [exact Et|reflexivity].
  - destruct (affect_short_mem cfg r _ _ _) as [[[sm1 am1] pl1]|] eqn:Ea;
      [|discriminate].
    destruct (try_learning cfg _) as [w2|] eqn:Et; [|discriminate].
    injection H as <- <-.
    eexists out, b, e1, g1, row, obs, r, term, trunc, env1, _, sm1, am1, pl1,
      _, _, _, w2.
    do 5 (split; [first [exact Ea | exact Erow | exact Ee | reflexivity
                        | now rewrite Ed]|]).
    cbv beta iota zeta.
    split; [reflexivity|]. split; [exact Et|reflexivity].
Qed.

Lemma length_deque_append {A} n (d : list A) x :
  length d = n -> (0 < n)%nat ->
  deque_append n d x = skipn 1 d ++ [x] /\ length (deque_append n d x) = n.
Proof.
  intros Hd Hn. unfold deque_append.
  replace (length d <? n)%nat with false
    by (symmetry; apply Nat.ltb_ge; lia).
  destruct d as [|y d]; [simpl in Hd; lia|]. simpl.
  split; [reflexivity|]. rewrite length_app. simpl in *. lia.
Qed.

(** What one iteration does to the shaping window, the replay store and
    the observation stack. *)
Lemma model_infer_step_memory (w w' : World) done :
  model_infer_step cfg w = Some (w', done) ->
  exists row obs r term trunc env1,
    env_step (env w) (argmax row) = (obs, r, term, trunc, env1)
    /\ done = term || trunc
    /\ let evict :=
         (REWARD_AFFECT_PAST_N cfg <? length (short_memory w))%nat in
       let sm1 :=
         propagate_reward cfg r
           (if evict then skipn 1 (short_memory w) else short_memory w) in
       let am1 :=
         if evict
         then fold_left (conditional_admission cfg)
                        (firstn 1 (short_memory w)) (actor_mem w)
         else actor_mem w in
       let obs' := if done then fst (env_reset env1) else obs in
       let stack :=
         deque_append (Pos.to_nat (INPUT_N_STATES cfg)) (obs_stack w) obs' in
       let blk :=
         {| mb_state := next_state_tensor w; mb_action := argmax row;
            mb_next_state := concat stack; mb_reward := to_float32 r |} in
       short_memory w' = (if done then [] else sm1 ++ [blk])
       /\ actor_mem w' =
          (if done
           then fold_left (conditional_admission cfg) (sm1 ++ [blk]) am1
           else am1)
       /\ obs_stack w' = stack
       /\ next_state_tensor w' = concat stack
       /\ env w' = (if done then snd (env_reset env1) else env1)
       /\ step w' = (step w + 1)%Z.
Proof.
  intros H. apply model_infer_step_inv in H.
  destruct H
    as (out & b & e1 & g1 & row & obs & r & term & trunc & env1 & pl0 & sm1
        & am1 & pl1 & sm2 & am2 & pl2 & w2 & _ & _ & Ee & Ed & Ea & Es & Et & ->).
  exists row, obs, r, term, trunc, env1.
  split; [exact Ee|]. split; [exact Ed|].
  destruct (try_learning_frame _ _ Et)
    as (Hstep & Hsm & Ham & Hstack & _ & Htensor & _ & _ & Henv).
  simpl in Hstep, Hsm, Ham, Hstack, Htensor, Henv.
  rewrite affect_short_mem_eq in Ea. cbv zeta.
  simpl short_memory. simpl actor_mem. simpl obs_stack.
  simpl next_state_tensor. simpl env. simpl step.
  rewrite Hsm, Ham, Hstack, Htensor, Henv, Hstep.
  destruct done.
  - rewrite send_short_to_long_mem_spec in Es by lia.
    injection Es as <- <- _. rewrite skipn_all, firstn_all.
    destruct (_ <? _)%nat; injection Ea as <- <- _; repeat split.
  - injection Es as <- <- _.
    destruct (_ <? _)%nat; injection Ea as <- <- _; repeat split.
Qed.

(** A run of the loop that returns ended on an iteration with [done]. *)
Lemma model_infer_loop_returned fuel : forall (w w' : World),
  model_infer_loop cfg fuel w = Returned w' ->
  exists w0, model_infer_step cfg w0 = Some (w', true).
Proof.
  induction fuel as [|fuel IH]; intros w w'; simpl; [discriminate|].
  destruct (model_infer_step cfg w) as [[w1 [|]]|] eqn:E; try discriminate.
  - intros [= <-]. now exists w.
  - apply IH.
Qed.

(** The loop returns as soon as an iteration reports [done]. *)
Lemma model_infer_loop_done fuel (w w' : World) :
  model_infer_step cfg w = Some (w', true) ->
  model_infer_loop cfg (S fuel) w = Returned w'.
Proof. intros E. simpl. now rewrite E. Qed.

(** C7.  An iteration of the episode loop is the last one exactly when
    the environment reports [terminated] or [truncated].  On such an
    iteration the whole window, the block created at that step included
    as its last element, is passed oldest first through the replay
    store's conditional admission, and the window is empty afterwards;
    so the window is empty whenever [model_infer] returns, and whenever
    an epoch of at least one episode returns. *)
Theorem window_flushed_at_episode_end :
  (forall (w w' : World) done,
      model_infer_step cfg w = Some (w', done) ->
      exists row obs r term trunc env1 sm1 am1,
        env_step (env w) (argmax row) = (obs, r, term, trunc, env1)
        /\ done = term || trunc
        /\ (forall pl0, exists pl1,
              affect_short_mem cfg r (short_memory w) (actor_mem w) pl0 =
              Some (sm1, am1, pl1))
        /\ (done = true ->
            short_memory w' = []
            /\ actor_mem w' =
               fold_left (conditional_admission cfg)
                 (sm1 ++
                  [{| mb_state := next_state_tensor w;
                      mb_action := argmax row;
                      mb_next_state :=
                        concat (deque_append
                                  (Pos.to_nat (INPUT_N_STATES cfg))
                                  (obs_stack w) (fst (env_reset env1)));
                      mb_reward := to_float32 r |}])
                 am1))
  /\ (forall fuel (w w' : World),
        model_infer cfg fuel w = Returned w' -> short_memory w' = [])
  /\ (forall n fuel (w w' : World),
        episodes cfg (S n) fuel w = Returned w' -> short_memory w' = []).
Proof.
  assert (Hstep : forall (w w' : World),
             model_infer_step cfg w = Some (w', true) -> short_memory w' = []).
  { intros w w' H. apply model_infer_step_memory in H.
    destruct H as (row & obs & r & term & trunc & env1 & _ & _ & H).
    cbv zeta in H. apply H. }
  assert (Hinfer : forall fuel (w w' : World),
             model_infer cfg fuel w = Returned w' -> short_memory w' = []).
  { intros fuel w w' H. unfold model_infer in H.
    apply model_infer_loop_returned in H. destruct H as [w0 H].
    now apply Hstep in H. }
  split; [|split; [exact Hinfer|]].
  - intros w w' done H. apply model_infer_step_memory in H.
    destruct H as (row & obs & r & term & trunc & env1 & Ee & Ed & H).
    cbv zeta in H. destruct H as (Hsm & Ham & _).
    exists row, obs, r, term, trunc, env1,
      (propagate_reward cfg r
         (if (REWARD_AFFECT_PAST_N cfg <? length (short_memory w))%nat
          then skipn 1 (short_memory w) else short_memory w)),
      (if (REWARD_AFFECT_PAST_N cfg <? length (short_memory w))%nat
       then fold_left (conditional_admission cfg)
                      (firstn 1 (short_memory w)) (actor_mem w)
       else actor_mem w).
    split; [exact Ee|]. split; [exact Ed|]. split.
    + intros pl0. rewrite affect_short_mem_eq.
      destruct (_ <? _)%nat; eexists; reflexivity.
    + intros ->. split; [exact Hsm|exact Ham].
  - induction n as [|n IH]; intros fuel w w'; simpl.
    + destruct (model_infer cfg fuel w) as [w1| |] eqn:E; try discriminate.
      intros [= <-]. now apply Hinfer in E.
    + destruct (model_infer cfg fuel w) as [w1| |] eqn:E; try discriminate.
      apply IH.
Qed.

(** C4 (amended).  On an iteration that does not end the episode, a
    window of at most [REWARD_AFFECT_PAST_N] blocks, so also one of
    exactly that many, is not flushed: it grows by the new block and the
    replay store is untouched.  A longer window has exactly its oldest
    block passed to the admission before the new block is appended, and
    keeps its length.  A window of at most [REWARD_AFFECT_PAST_N + 1]
    blocks holds at most [REWARD_AFFECT_PAST_N] blocks when the new one
    is appended and at most [REWARD_AFFECT_PAST_N + 1] afterwards. *)
Theorem window_length_after_step (w w' : World) done :
  model_infer_step cfg w = Some (w', done) ->
  let n := length (short_memory w) in
  let N := REWARD_AFFECT_PAST_N cfg in
  (done = false ->
   ((n <= N)%nat ->
    length (short_memory w') = S n /\ actor_mem w' = actor_mem w)
   /\ ((N < n)%nat ->
       length (short_memory w') = n
       /\ exists oldest rest,
           short_memory w = oldest :: rest
           /\ actor_mem w' = conditional_admission cfg (actor_mem w) oldest))
  /\ ((n <= S N)%nat ->
      exists kept blk,
        (length kept <= N)%nat
        /\ short_memory w' = (if done then [] else kept ++ [blk])
        /\ (length (short_memory w') <= S N)%nat).
Proof.
  intros H n N. apply model_infer_step_memory in H.
  destruct H as (row & obs & r & term & trunc & env1 & _ & _ & H).
  cbv zeta in H. destruct H as (Hsm & Ham & _). fold n N in Hsm, Ham.
  split.
  - intros ->. split.
    + intros Hn. apply Nat.ltb_ge in Hn. rewrite Hn in Hsm, Ham.
      split; [|exact Ham].
      rewrite Hsm, length_app, propagate_reward_length. simpl. fold n. lia.
    + intros Hn. pose proof Hn as Hn'. apply Nat.ltb_lt in Hn'.
      rewrite Hn' in Hsm, Ham. split.
      * rewrite Hsm, length_app, propagate_reward_length, length_skipn.
        simpl. fold n. lia.
      * destruct (short_memory w) as [|oldest rest]; [simpl in n; lia|].
        now exists oldest, rest.
  - intros Hn. eexists _, _. split; [|split]. 2: exact Hsm.
    + rewrite propagate_reward_length.
      destruct (Nat.ltb_spec N n); [rewrite length_skipn|]; fold n; lia.
    + rewrite Hsm. destruct done; [simpl; lia|].
      rewrite length_app, propagate_reward_length.
      destruct (Nat.ltb_spec N n); [rewrite length_skipn|]; simpl; fold n; lia.
Qed.

(** C10.  On the iteration that ends an episode the environment is reset
    first, and the block built afterwards has as next state the last
    [INPUT_N_STATES - 1] observations of the stack followed by the first
    observation of the new episode: inside the loop the stack is shifted,
    not refilled.  The observation returned by the terminal step itself
    is not recorded.  The block carries the reward of the terminal step,
    the same reward that was propagated to the earlier blocks, and is the
    last one handed to the replay store's admission. *)
Theorem terminal_transition_spans_reset (w w' : World) :
  model_infer_step cfg w = Some (w', true) ->
  length (obs_stack w) = Pos.to_nat (INPUT_N_STATES cfg) ->
  exists row obs r term trunc env1 sm1 am1,
    env_step (env w) (argmax row) = (obs, r, term, trunc, env1)
    /\ term || trunc = true
    /\ env w' = snd (env_reset env1)
    /\ (forall pl0, exists pl1,
          affect_short_mem cfg r (short_memory w) (actor_mem w) pl0 =
          Some (sm1, am1, pl1))
    /\ let reset_obs := fst (env_reset env1) in
       let terminal :=
         {| mb_state := next_state_tensor w; mb_action := argmax row;
            mb_next_state := concat (skipn 1 (obs_stack w)) ++ reset_obs;
            mb_reward := to_float32 r |} in
       actor_mem w' =
         conditional_admission cfg
           (fold_left (conditional_admission cfg) sm1 am1) terminal
       /\ obs_stack w' = skipn 1 (obs_stack w) ++ [reset_obs]
       /\ length (skipn 1 (obs_stack w)) =
          (Pos.to_nat (INPUT_N_STATES cfg) - 1)%nat
       /\ next_state_tensor w' = mb_next_state terminal.
Proof.
  intros H Hstack. apply model_infer_step_memory in H.
  destruct H as (row & obs & r & term & trunc & env1 & Ee & Ed & H).
  cbv zeta in H. destruct H as (_ & Ham & Hobs & Htensor & Henv & _).
  destruct (length_deque_append (obs_stack w) (fst (env_reset env1)) Hstack)
    as [Hdq _]; [lia|].
  rewrite Hdq in Ham, Hobs, Htensor.
  rewrite concat_app in Ham, Htensor. simpl in Ham, Htensor.
  rewrite app_nil_r in Ham, Htensor.
  exists row, obs, r, term, trunc, env1,
    (propagate_reward cfg r
       (if (REWARD_AFFECT_PAST_N cfg <? length (short_memory w))%nat
        then skipn 1 (short_memory w) else short_memory w)),
    (if (REWARD_AFFECT_PAST_N cfg <? length (short_memory w))%nat
     then fold_left (conditional_admission cfg)
                    (firstn 1 (short_memory w)) (actor_mem w)
     else actor_mem w).
  split; [exact Ee|]. split; [now rewrite Ed|]. split; [exact Henv|]. split.
  { intros pl0. rewrite affect_short_mem_eq.
    destruct (_ <? _)%nat; eexists; reflexivity. }
  cbv zeta. split; [|split; [exact Hobs|split; [|exact Htensor]]].
  - rewrite Ham, fold_left_app. reflexivity.
  - rewrite length_skipn. lia.
Qed.

Lemma nth_error_map_combine {A B C} (f : A * B -> C) l1 l2 i a b :
  nth_error l1 i = Some a -> nth_error l2 i = Some b ->
  nth_error (map f (combine l1 l2)) i = Some (f (a, b)).
Proof.
  revert l2 i. induction l1 as [|x l1 IH]; intros [|y l2] [|i]; simpl;
    try discriminate.
  - now intros [= ->] [= ->].
  - apply IH.
Qed.

(** C8.  The scheduler: on a step that is a multiple of
    [HARD_COPY_INTERVAL] the target parameters become the online ones,
    whether or not the soft blend is due as well; on a step that is a
    multiple of [SOFT_COPY_INTERVAL] only, every target parameter [t]
    with online counterpart [o] becomes [t + TAU * (o - t)]; on any other
    step the target parameters stay.  An iteration of the episode loop
    calls it once, with the step count of that iteration and the online
    parameters left by the training attempt, and then increments the
    count; the training step, the training attempt and the
    re-initialisation of an epoch leave the target parameters alone. *)
Theorem target_synchronisation :
  (forall step (actor pred : list R),
      ((step mod Z.pos (HARD_COPY_INTERVAL cfg) = 0)%Z ->
       soft_hard_copy cfg step actor pred = actor)
      /\ ((step mod Z.pos (SOFT_COPY_INTERVAL cfg) = 0)%Z ->
          (step mod Z.pos (HARD_COPY_INTERVAL cfg) <> 0)%Z ->
          length (soft_hard_copy cfg step actor pred) =
            Nat.min (length pred) (length actor)
          /\ forall i t o,
              nth_error pred i = Some t -> nth_error actor i = Some o ->
              nth_error (soft_hard_copy cfg step actor pred) i =
              Some (fadd t (fmul (TAU cfg) (fsub o t))))
      /\ ((step mod Z.pos (SOFT_COPY_INTERVAL cfg) <> 0)%Z ->
          (step mod Z.pos (HARD_COPY_INTERVAL cfg) <> 0)%Z ->
          soft_hard_copy cfg step actor pred = pred))
  /\ (forall (w w' : World) done,
        model_infer_step cfg w = Some (w', done) ->
        step w' = (step w + 1)%Z
        /\ pred_model w' =
           soft_hard_copy cfg (step w) (actor_model w') (pred_model w))
  /\ (forall bs (w w' : World) loss,
        model_train cfg bs w = Some (loss, w') -> pred_model w' = pred_model w)
  /\ (forall (w w' : World),
        try_learning cfg w = Some w' -> pred_model w' = pred_model w)
  /\ (forall (w : World), pred_model (reinitialize cfg w) = pred_model w).
Proof.
  split; [|split; [|split; [|split]]].
  - intros step actor pred. unfold soft_hard_copy.
    split; [|split].
    + intros Hh. apply Z.eqb_eq in Hh. now rewrite Hh.
    + intros Hs Hh. apply Z.eqb_eq in Hs. apply Z.eqb_neq in Hh.
      rewrite Hs, Hh. split.
      * now rewrite length_map, length_combine.
      * intros i t o Ht Ho.
        now rewrite (nth_error_map_combine _ _ _ _ Ht Ho).
    + intros Hs Hh. apply Z.eqb_neq in Hs, Hh. now rewrite Hs, Hh.
  - intros w w' done H. apply model_infer_step_inv in H.
    destruct H
      as (out & b & e1 & g1 & row & obs & r & term & trunc & env1 & pl0 & sm1
          & am1 & pl1 & sm2 & am2 & pl2 & w2 & _ & _ & _ & _ & _ & _ & Et & ->).
    apply try_learning_frame in Et.
    destruct Et as (Hstep & _ & _ & _ & _ & _ & _ & Hp & _).
    simpl in *. now rewrite Hstep, Hp.
  - intros bs w w' loss H. apply model_train_frame in H.
    destruct H as (theta & o & e & g & m & ->).
    reflexivity.
  - intros w w' H. now apply try_learning_frame in H.
  - intros w. unfold reinitialize. now destruct (env_reset (env w)).
Qed.

(** The three forward passes of a training step decay [eps] three times. *)
Lemma backward_pass_eps bs (w : World) l gr e g m :
  backward_pass cfg bs w = Some (l, gr, e, g, m) ->
  e = next_epsilon cfg (next_epsilon cfg (next_epsilon cfg (eps w))).
Proof.
  unfold backward_pass.
  destruct (sample (actor_mem w) bs (rng w)) as [[ts g0]|]; [|discriminate].
  destruct (forward cfg (actor_model w) (map (@state R) ts) _ true (eps w) g0)
    as [[[sv nsg] e1] g1] eqn:E1.
  cbv beta iota zeta.
  destruct (tmax _); [|discriminate]. destruct (tmin _); [|discriminate].
  destruct (gather sv _); [|discriminate].
  destruct (forward cfg (actor_model w) _ None true e1 g1)
    as [[[anp x2] e2] g2] eqn:E2.
  destruct (forward cfg (pred_model w) _ None true e2 g2)
    as [[[po x3] e3] g3] eqn:E3.
  destruct (gather po _); [|discriminate].
  intros [= _ _ <- _ _].
  apply (f_equal (fun p => snd (fst p))) in E1, E2, E3.
  rewrite forward_eps in E1, E2, E3. simpl in E1, E2, E3.
  now subst.
Qed.

(** How far [eps] decays over one iteration of the episode loop: once for
    the action selection, and three more times when a training update
    runs on that iteration. *)
Lemma epsilon_after_step (w w' : World) done :
  model_infer_step cfg w = Some (w', done) ->
  eps w' =
  if LEARNING_ENABLED cfg
     && (Pos.to_nat (BATCH_SIZE cfg) <? length (memory (actor_mem w')))%nat
     && (step w mod Z.pos (TRAIN_INTERVAL cfg) =? 0)%Z
  then next_epsilon cfg
         (next_epsilon cfg (next_epsilon cfg (next_epsilon cfg (eps w))))
  else next_epsilon cfg (eps w).
Proof.
  intros H. apply model_infer_step_inv in H.
  destruct H
    as (out & b & e1 & g1 & row & obs & r & term & trunc & env1 & pl0 & sm1
        & am1 & pl1 & sm2 & am2 & pl2 & w2 & Ef & _ & _ & _ & _ & _ & Et & ->).
  apply (f_equal (fun p => snd (fst p))) in Ef.
  rewrite forward_eps in Ef. simpl in Ef. subst e1.
  pose proof Et as Hframe. apply try_learning_frame in Hframe.
  destruct Hframe as (_ & _ & Ham & _).
  simpl in Ham. simpl actor_mem. simpl eps at 1. rewrite Ham.
  unfold try_learning in Et. simpl in Et.
  destruct (LEARNING_ENABLED cfg); simpl in *; [|now injection Et as <-].
  destruct (_ <? _)%nat; simpl in *.
  2:{ destruct (_ && _); now injection Et as <-. }
  destruct (step w mod Z.pos (TRAIN_INTERVAL cfg) =? 0)%Z.
  2:{ destruct (_ && _); now injection Et as <-. }
  unfold model_train in Et.
  destruct (backward_pass cfg _ _) as [[[[[l gr] e] g] m]|] eqn:Eb;
    [|discriminate].
  apply backward_pass_eps in Eb. simpl in Eb.
  destruct (RAdam_step _ _ _) as [theta o]. simpl in Et.
  destruct (_ && _); injection Et as <-; exact Eb.
Qed.

(** ** The iteration never raises *)

Lemma rand_row_length n : forall g : Rng, length (fst (rand_row n g)) = n.
Proof.
  induction n as [|n IH]; intros g; simpl; [reflexivity|].
  destruct (rand_uniform g) as [u g1]. specialize (IH g1).
  destruct (rand_row n g1) as [us g2]. simpl in *. congruence.
Qed.

Lemma rand_like_shape (a : list (list R)) : forall g : Rng,
  map (@length R) (fst (rand_like a g)) = map (@length R) a.
Proof.
  induction a as [|row a IH]; intros g; simpl; [reflexivity|].
  pose proof (rand_row_length (length row) g) as Hr.
  destruct (rand_row (length row) g) as [r g1]. specialize (IH g1).
  destruct (rand_like a g1) as [rs g2]. simpl in *. congruence.
Qed.

(** In either mode the first output of [forward] has one row of
    [N_ACTIONS] entries per sample. *)
Lemma forward_shape theta x real_actions training eps (g : Rng) :
  map (@length R)
      (fst (fst (fst (forward cfg theta x real_actions training eps g)))) =
  map (fun _ => N_ACTIONS) x.
Proof.
  assert (Hq : map (@length R)
                   (map (fun xi => map (q_value theta xi) (seq 0 N_ACTIONS)) x)
               = map (fun _ => N_ACTIONS) x).
  { rewrite map_map. apply map_ext. intros xi.
    now rewrite length_map, length_seq. }
  unfold forward. destruct (choose_eq cfg eps g) as [explore ->].
  destruct (negb training && explore); [|exact Hq].
  pose proof (rand_like_shape
                (map (fun xi => map (q_value theta xi) (seq 0 N_ACTIONS)) x)
                (next_rng cfg g)) as Hs.
  destruct (rand_like _ _) as [u g1]. simpl in *.
  rewrite map_map.
  rewrite <- Hq, <- Hs. apply map_ext. intros row. apply length_map.
Qed.

Lemma update_at_actions v k (l : list (mem_block R)) :
  map (@mb_action R) (update_at (add_reward v) k l) = map (@mb_action R) l.
Proof.
  revert k; induction l as [|b l IH]; intros [|k]; simpl; try reflexivity.
  now rewrite IH.
Qed.

(** Shaping changes rewards only. *)
Lemma propagate_reward_actions r (sm : list (mem_block R)) :
  map (@mb_action R) (propagate_reward cfg r sm) = map (@mb_action R) sm.
Proof.
  unfold propagate_reward. destruct (_ || _); [|reflexivity].
  generalize (seq 0 (length sm)). intros idx. revert sm.
  induction idx as [|i idx IH]; intros sm; simpl; [reflexivity|].
  now rewrite IH, affect_one_eq, update_at_actions.
Qed.

Lemma Forall_actions (l l' : list (mem_block R)) :
  map (@mb_action R) l = map (@mb_action R) l' ->
  Forall (fun b => (mb_action b < N_ACTIONS)%nat) l' ->
  Forall (fun b => (mb_action b < N_ACTIONS)%nat) l.
Proof.
  intros E H.
  apply (Forall_map (@mb_action R) (fun a => (a < N_ACTIONS)%nat)).
  rewrite E. now apply Forall_map.
Qed.

Lemma admission_range (l : list (mem_block R)) : forall am : MemoryStack R,
  Forall (fun b => (mb_action b < N_ACTIONS)%nat) l ->
  Forall (fun t => (action t < N_ACTIONS)%nat) (memory am) ->
  Forall (fun t => (action t < N_ACTIONS)%nat)
         (memory (fold_left (conditional_admission cfg) l am)).
Proof.
  induction l as [|b l IH]; intros am Hl Ham; simpl; [exact Ham|].
  apply Forall_cons_iff in Hl. destruct Hl as [Hb Hl].
  apply IH; [exact Hl|].
  unfold conditional_admission. destruct (fgt _ _); [|exact Ham].
  assert (Happ : Forall (fun t => (action t < N_ACTIONS)%nat)
                        (memory am ++ [Transition_of b])).
  { apply Forall_app. split; [exact Ham|]. now constructor. }
  simpl. destruct (_ <? _)%Z; [exact Happ|].
  destruct (memory am ++ [Transition_of b]); [constructor|].
  now apply Forall_cons_iff in Happ.
Qed.

Lemma Forall_skipn_1 {A} (P : A -> Prop) (l : list A) :
  Forall P l -> Forall P (skipn 1 l).
Proof. destruct 1; simpl; [constructor|assumption]. Qed.

Lemma Forall_firstn_1 {A} (P : A -> Prop) (l : list A) :
  Forall P l -> Forall P (firstn 1 l).
Proof. destruct 1; simpl; constructor; [assumption|constructor]. Qed.

Lemma try_learning_returns (w : World) :
  Forall (fun t => (action t < N_ACTIONS)%nat) (memory (actor_mem w)) ->
  exists w', try_learning cfg w = Some w'.
Proof.
  intros Hrange. unfold try_learning.
  destruct (negb (LEARNING_ENABLED cfg)); [now eexists|].
  destruct (Nat.ltb_spec (Pos.to_nat (BATCH_SIZE cfg))
                         (length (memory (actor_mem w)))) as [Hlt|Hge];
    [|now eexists].
  destruct (_ =? _)%Z; [|now eexists].
  assert (Hpos : (0 < Pos.to_nat (BATCH_SIZE cfg))%nat) by lia.
  destruct (model_train_spec cfg w Hpos (Nat.lt_le_incl _ _ Hlt) Hrange)
    as (ts & g0 & v & _ & _ & _ & ->).
  cbv beta iota zeta. now eexists.
Qed.

(** From globals whose recorded actions are actions of the environment,
    an iteration of the episode loop returns, and its result is such a
    state again. *)
Lemma model_infer_step_total (w : World) :
  actions_in_range w ->
  exists w' done,
    model_infer_step cfg w = Some (w', done) /\ actions_in_range w'.
Proof.
  intros [Hmem Hwin].
  assert (Hev : Forall (fun t => (action t < N_ACTIONS)%nat)
                  (memory (fold_left (conditional_admission cfg)
                                     (firstn 1 (short_memory w)) (actor_mem w))))
    by (apply admission_range; [now apply Forall_firstn_1|exact Hmem]).
  assert (Hprop : forall r sm,
             Forall (fun b => (mb_action b < N_ACTIONS)%nat) sm ->
             Forall (fun b => (mb_action b < N_ACTIONS)%nat)
                    (propagate_reward cfg r sm))
    by (intros r sm Hsm; eapply Forall_actions;
        [apply propagate_reward_actions|exact Hsm]).
  unfold model_infer_step.
  pose proof (forward_shape (actor_model w) [next_state_tensor w] None false
                            (eps w) (rng w)) as Hshape.
  destruct (forward cfg (actor_model w) _ None false (eps w) (rng w))
    as [[[out b] e1] g1]. simpl in Hshape.
  destruct out as [|row [|]]; try discriminate.
  injection Hshape as Hrow.
  destruct row as [|o0 [|o1 [|o2 [|o3 [|]]]]]; try discriminate.
  cbn [nth_error].
  set (row := [o0; o1; o2; o3]).
  assert (Ha : (argmax row < N_ACTIONS)%nat)
    by (apply (@argmax_lt _ _ row); discriminate).
  destruct (env_step (env w) (argmax row)) as [[[[obs r] term] trunc] env1].
  rewrite affect_short_mem_eq.
  set (sm1 := propagate_reward cfg r
                (if (REWARD_AFFECT_PAST_N cfg <? length (short_memory w))%nat
                 then skipn 1 (short_memory w) else short_memory w)).
  set (am1 := if (REWARD_AFFECT_PAST_N cfg <? length (short_memory w))%nat
              then fold_left (conditional_admission cfg)
                             (firstn 1 (short_memory w)) (actor_mem w)
              else actor_mem w).
  assert (Hsm1 : Forall (fun b => (mb_action b < N_ACTIONS)%nat) sm1).
  { apply Hprop. destruct (_ <? _)%nat; [now apply Forall_skipn_1|exact Hwin]. }
  assert (Ham1 : Forall (fun t => (action t < N_ACTIONS)%nat) (memory am1)).
  { unfold am1. now destruct (_ <? _)%nat. }
  destruct (term || trunc).
  - destruct (env_reset env1) as [o e].
    destruct (REWARD_AFFECT_PAST_N cfg <? length (short_memory w))%nat;
      cbv beta iota;
      rewrite send_short_to_long_mem_spec by lia;
      rewrite firstn_all, skipn_all;
      match goal with
      | |- context [try_learning cfg ?m] =>
          assert (Hmid : Forall (fun t => (action t < N_ACTIONS)%nat)
                                (memory (actor_mem m)))
            by (simpl; apply admission_range;
                [apply Forall_app; split;
                 [exact Hsm1|constructor; [exact Ha|constructor]]
                |exact Ham1]);
          destruct (try_learning_returns m Hmid) as [w2 Et];
          pose proof Et as Hframe; apply try_learning_frame in Hframe;
          rewrite Et
      end;
      eexists _, _; (split; [reflexivity|]);
      destruct Hframe as (_ & Hs & Hm & _); simpl in Hs, Hm;
      split; simpl; rewrite ?Hs, ?Hm; try constructor;
      (apply admission_range;
       [apply Forall_app; split;
        [exact Hsm1|constructor; [exact Ha|constructor]]
       |exact Ham1]).
  - destruct (REWARD_AFFECT_PAST_N cfg <? length (short_memory w))%nat;
      cbv beta iota;
      match goal with
      | |- context [try_learning cfg ?m] =>
          assert (Hmid : Forall (fun t => (action t < N_ACTIONS)%nat)
                                (memory (actor_mem m)))
            by (simpl; exact Ham1);
          destruct (try_learning_returns m Hmid) as [w2 Et];
          pose proof Et as Hframe; apply try_learning_frame in Hframe;
          rewrite Et
      end;
      eexists _, _; (split; [reflexivity|]);
      destruct Hframe as (_ & Hs & Hm & _); simpl in Hs, Hm;
      split; simpl; rewrite ?Hs, ?Hm; try exact Ham1;
      (apply Forall_app; split;
       [exact Hsm1|constructor; [exact Ha|constructor]]).
Qed.

(** ** Invariants along a run *)

(** The window never holds more than [REWARD_AFFECT_PAST_N + 1] blocks. *)
Lemma window_bounded_along_run (w w' : World) :
  reaches cfg w w' ->
  (length (short_memory w) <= S (REWARD_AFFECT_PAST_N cfg))%nat ->
  (length (short_memory w') <= S (REWARD_AFFECT_PAST_N cfg))%nat.
Proof.
  induction 1 as [w|w w1 w2 done _ IH Hstep]; intros Hw; [exact Hw|].
  specialize (IH Hw). apply model_infer_step_memory in Hstep.
  destruct Hstep as (row & obs & r & term & trunc & env1 & _ & _ & H).
  cbv zeta in H. destruct H as (-> & _). destruct done; [simpl; lia|].
  rewrite length_app, propagate_reward_length.
  destruct (Nat.ltb_spec (REWARD_AFFECT_PAST_N cfg) (length (short_memory w1)));
    [rewrite length_skipn|]; simpl; lia.
Qed.

(** The observation stack keeps its [INPUT_N_STATES] entries. *)
Lemma obs_stack_full_along_run (w w' : World) :
  reaches cfg w w' ->
  length (obs_stack w) = Pos.to_nat (INPUT_N_STATES cfg) ->
  length (obs_stack w') = Pos.to_nat (INPUT_N_STATES cfg).
Proof.
  induction 1 as [w|w w1 w2 done _ IH Hstep]; intros Hw; [exact Hw|].
  specialize (IH Hw). apply model_infer_step_memory in Hstep.
  destruct Hstep as (row & obs & r & term & trunc & env1 & _ & _ & H).
  cbv zeta in H. destruct H as (_ & _ & -> & _).
  apply length_deque_append; [exact IH|lia].
Qed.

Lemma actions_in_range_along_run (w w' : World) :
  reaches cfg w w' -> actions_in_range w -> actions_in_range w'.
Proof.
  induction 1 as [w|w w1 w2 done _ IH Hstep]; intros Hw; [exact Hw|].
  destruct (model_infer_step_total (IH Hw)) as (w3 & d & E & Hr).
  rewrite Hstep in E. now injection E as <- _.
Qed.

(** The module-level initialisation establishes the three invariants, and
    the re-initialisation of an epoch keeps them. *)
Lemma initial_world_invariants theta (o : Opt) (e : Env) (g : Rng) :
  let w := initial_world cfg theta o e g in
  short_memory w = []
  /\ length (obs_stack w) = Pos.to_nat (INPUT_N_STATES cfg)
  /\ actions_in_range w.
Proof.
  unfold initial_world. destruct (env_reset e) as [obs e1]. simpl.
  split; [reflexivity|]. split; [apply repeat_length|].
  split; constructor.
Qed.

Lemma reinitialize_invariants (w : World) :
  short_memory (reinitialize cfg w) = short_memory w
  /\ actor_mem (reinitialize cfg w) = actor_mem w
  /\ length (obs_stack (reinitialize cfg w)) = Pos.to_nat (INPUT_N_STATES cfg).
Proof.
  unfold reinitialize. destruct (env_reset (env w)) as [obs e1]. simpl.
  repeat split. apply repeat_length.
Qed.

(** An episode started from in-range globals never raises: it returns or
    is still running when the fuel is spent. *)
Lemma model_infer_loop_never_raises fuel : forall w : World,
  actions_in_range w -> model_infer_loop cfg fuel w <> Raised.
Proof.
  induction fuel as [|fuel IH]; intros w Hw; simpl; [discriminate|].
  destruct (model_infer_step_total Hw) as (w' & done & -> & Hw').
  destruct done; [discriminate|]. now apply IH.
Qed.

(** More fuel does not change the result of an episode that returned. *)
Lemma model_infer_loop_fuel fuel : forall (w w' : World) extra,
  model_infer_loop cfg fuel w = Returned w' ->
  model_infer_loop cfg (fuel + extra) w = Returned w'.
Proof.
  induction fuel as [|fuel IH]; intros w w' extra; simpl; [discriminate|].
  destruct (model_infer_step cfg w) as [[w1 [|]]|]; try discriminate.
  - exact (fun H => H).
  - apply IH.
Qed.

End Loop.

(** * Concrete runs *)

Lemma stocked_in_range n k e :
  Forall (fun t => (action t < N_ACTIONS)%nat)
         (memory (actor_mem (Toy.stocked n k e))).
Proof.
  apply Forall_forall. intros t Ht. simpl in Ht.
  apply repeat_spec in Ht. subst t. simpl. unfold N_ACTIONS. lia.
Defined.

(** The training step on a store of 65 transitions. *)
Lemma double_dqn_target_run :
  (0 < 64)%nat
  /\ (64 <= length (memory (actor_mem (Toy.stocked 65 0 0))))%nat
  /\ exists loss w',
      model_train Toy.config 64 (Toy.stocked 65 0 0) = Some (loss, w')
      /\ pred_model w' = pred_model (Toy.stocked 65 0 0).
Proof.
  assert (H0 : (0 < 64)%nat) by lia.
  assert (H1 : (64 <= length (memory (actor_mem (Toy.stocked 65 0 0))))%nat)
    by (simpl; lia).
  split; [exact H0|]. split; [exact H1|].
  destruct (double_dqn_target_by_construction
              Toy.config (Toy.stocked 65 0 0) H0 H1 (stocked_in_range 65 0 0))
    as (ts & g0 & loss & w' & objective & _ & Et & _ & _ & _ & _ & Hp).
  exists loss, w'. split; [exact Et|exact Hp].
Defined.

(** The example of the specification: rewards [0.1, 0.2, 0.3], oldest
    first, and an incoming reward of [10]. *)
Lemma reward_back_propagation_example :
  exists sm',
    affect_short_mem lunarlander 10 Toy.example_window Toy.empty_store [] =
    Some (sm', Toy.empty_store, [])
    /\ map (@mb_reward Q) sm' = [103 # 30; 26 # 5; 103 # 10].
Proof.
  destruct (affect_short_mem_propagates lunarlander 10 Toy.example_window
                                        Toy.empty_store [])
    as (sm1 & am1 & plot1 & sm' & _ & Hkeep & Ha & Hlen & Hout & _).
  destruct Hkeep as (-> & -> & ->); [simpl; lia|].
  exists sm'. split; [exact Ha|].
  assert (H10 : fgt (10 : Q) (snd (REWARD_AFFECT_THRESH lunarlander)) = true)
    by reflexivity.
  pose proof (Hout (or_intror H10) 0%nat _ eq_refl) as E0.
  pose proof (Hout (or_intror H10) 1%nat _ eq_refl) as E1.
  pose proof (Hout (or_intror H10) 2%nat _ eq_refl) as E2.
  rewrite <- (rev_involutive sm').
  rewrite <- length_rev in Hlen.
  destruct (rev sm') as [|a [|b [|c [|d l]]]]; try discriminate.
  simpl in E0, E1, E2. injection E0 as ->. injection E1 as ->.
  injection E2 as ->. reflexivity.
Defined.

(** A window of exactly [REWARD_AFFECT_PAST_N = 10] blocks, each of
    reward 1 and so admissible: the iteration flushes nothing (no
    [real_reward] entry, an empty replay store) and leaves 11 blocks. *)
Lemma full_window_is_not_flushed :
  length (short_memory (Toy.stocked 0 10 0)) = REWARD_AFFECT_PAST_N Toy.config
  /\ exists w',
      model_infer_step Toy.config (Toy.stocked 0 10 0) = Some (w', false)
      /\ length (short_memory w') = 11%nat
      /\ length (short_memory w') <> REWARD_AFFECT_PAST_N Toy.config
      /\ memory (actor_mem w') = []
      /\ filter (fun e => String.eqb (fst e) "real_reward") (multiplot w') = [].
Proof.
  split; [reflexivity|]. eexists. split; [vm_compute; reflexivity|].
  repeat split. vm_compute. discriminate.
Qed.

(** The same iteration, read through the amended statement, and an
    iteration on a window of 11 blocks. *)
Lemma window_length_run :
  exists w' w'',
    model_infer_step Toy.config (Toy.stocked 0 10 0) = Some (w', false)
    /\ length (short_memory w') = 11%nat
    /\ actor_mem w' = actor_mem (Toy.stocked 0 10 0)
    /\ model_infer_step Toy.config (Toy.stocked 0 11 0) = Some (w'', false)
    /\ length (short_memory w'') = 11%nat
    /\ memory (actor_mem w'') = [Toy.transition 1].
Proof.
  assert (E1 : {w' | model_infer_step Toy.config (Toy.stocked 0 10 0)
                     = Some (w', false)})
    by (eexists; vm_compute; reflexivity).
  assert (E2 : {w' | model_infer_step Toy.config (Toy.stocked 0 11 0)
                     = Some (w', false)})
    by (eexists; vm_compute; reflexivity).
  destruct E1 as [w' E1], E2 as [w'' E2]. exists w', w''.
  destruct (window_length_after_step _ _ E1) as [H1 _].
  destruct (window_length_after_step _ _ E2) as [H2 _].
  destruct (H1 eq_refl) as [[L1 M1] _]; [vm_compute; lia|].
  destruct (H2 eq_refl) as [_ [L2 (oldest & rest & Ew & M2)]];
    [vm_compute; lia|].
  split; [exact E1|]. split; [exact L1|]. split; [exact M1|].
  split; [exact E2|]. split; [exact L2|].
  rewrite M2. injection Ew as <- _. reflexivity.
Defined.

(** A flush of two blocks out of three: the block of reward 1 is
    admitted, the block of reward 0 is dropped. *)
Lemma flush_admission_run :
  (2 <= length [Toy.block 1; Toy.block 0; Toy.block 3])%nat
  /\ send_short_to_long_mem Toy.config 2
       [Toy.block 1; Toy.block 0; Toy.block 3] Toy.empty_store [] =
     Some ([Toy.block 3], push Toy.empty_store (Toy.transition 1),
           [("real_reward"%string, 1); ("real_reward"%string, 0)]).
Proof.
  assert (H : (2 <= length [Toy.block 1; Toy.block 0; Toy.block 3])%nat)
    by (simpl; lia).
  split; [exact H|].
  destruct (flush_conditional_admission Toy.config
              [Toy.block 1; Toy.block 0; Toy.block 3] Toy.empty_store [] H)
    as [-> _].
  reflexivity.
Defined.

(** With 65 stored transitions the training update runs and its loss is
    logged; with 64 it is skipped. *)
Lemma try_learning_run :
  training_due Toy.config (Toy.stocked 65 0 0) = true
  /\ training_due Toy.config (Toy.stocked 64 0 0) = false
  /\ (exists w' loss,
        try_learning Toy.config (Toy.stocked 65 0 0) = Some w'
        /\ multiplot w' =
           [("surprisal"%string, 0); ("grad_norm"%string, 4784 # 125);
            ("a_loss"%string, loss)])
  /\ (exists w',
        try_learning Toy.config (Toy.stocked 64 0 0) = Some w'
        /\ actor_model w' = actor_model (Toy.stocked 64 0 0)
        /\ multiplot w' = []).
Proof.
  destruct (try_learning_when_due Toy.config (Toy.stocked 65 0 0)
                                  (stocked_in_range 65 0 0))
    as (_ & _ & w1 & E1 & _ & _ & Hdue & _).
  destruct (try_learning_when_due Toy.config (Toy.stocked 64 0 0)
                                  (stocked_in_range 64 0 0))
    as (_ & Hfew & w2 & E2 & _ & _ & _ & Hskip).
  assert (D1 : training_due Toy.config (Toy.stocked 65 0 0) = true)
    by reflexivity.
  assert (D2 : training_due Toy.config (Toy.stocked 64 0 0) = false)
    by (apply Hfew; simpl; lia).
  split; [exact D1|]. split; [exact D2|]. split.
  - destruct (Hdue D1) as (loss & w & Et & _ & _ & Hm).
    exists w1, loss. split; [exact E1|]. rewrite Hm.
    vm_compute in Et. injection Et as _ <-. reflexivity.
  - destruct (Hskip D2) as (Ha & _ & _ & _ & Hm).
    exists w2. split; [exact E2|]. split; [exact Ha|exact Hm].
Defined.

(** An episode of the toy environment from the initial globals: three
    iterations, after which the window is empty and its three blocks are
    in the replay store. *)
Lemma episode_run :
  exists w',
    model_infer Toy.config 10 Toy.start = Returned w'
    /\ short_memory w' = []
    /\ map (@reward Q) (memory (actor_mem w')) = [5; 10; 10].
Proof.
  assert (E : {w' | model_infer Toy.config 10 Toy.start = Returned w'})
    by (eexists; vm_compute; reflexivity).
  destruct E as [w' E]. exists w'.
  destruct (window_flushed_at_episode_end Toy.config) as (_ & Hinfer & _).
  split; [exact E|]. split; [exact (Hinfer _ _ _ E)|].
  vm_compute in E. injection E as <-. reflexivity.
Defined.

(** The last iteration of a toy episode: the stack is shifted by one and
    receives the observation [[0; 0]] of the reset, the observation
    [[3; 0]] of the terminal step is dropped, and the block of reward 10,
    whose next state spans both episodes, is admitted. *)
Lemma terminal_transition_run :
  exists w',
    model_infer_step Toy.config (Toy.stocked 0 0 2) = Some (w', true)
    /\ length (obs_stack (Toy.stocked 0 0 2)) =
       Pos.to_nat (INPUT_N_STATES Toy.config)
    /\ obs_stack w' = [[6; 0]; [7; 0]; [8; 0]; [0; 0]]
    /\ env w' = 0%nat
    /\ map (fun t => (next_state t, reward t)) (memory (actor_mem w')) =
       [([6; 0; 7; 0; 8; 0; 0; 0], 10)].
Proof.
  assert (E : {w' | model_infer_step Toy.config (Toy.stocked 0 0 2)
                    = Some (w', true)})
    by (eexists; vm_compute; reflexivity).
  destruct E as [w' E]. exists w'.
  assert (L : length (obs_stack (Toy.stocked 0 0 2)) =
              Pos.to_nat (INPUT_N_STATES Toy.config)) by reflexivity.
  destruct (terminal_transition_spans_reset _ _ E L)
    as (row & obs & r & term & trunc & env1 & sm1 & am1 & _ & _ & He & _ & H).
  cbv zeta in H. destruct H as (_ & Hs & _ & _).
  split; [exact E|]. split; [exact L|]. split; [|split].
  - rewrite Hs. vm_compute in E. injection E as <-. reflexivity.
  - vm_compute in E. injection E as <-. reflexivity.
  - vm_compute in E. injection E as <-. reflexivity.
Defined.

(** C2.  A run of the program from its initial globals on the toy
    environment.  After 22 epochs (66 iterations) the replay store holds
    66 transitions, more than [BATCH_SIZE], and [eps] is 1.931.  The
    first iteration of the next epoch takes one environment step and
    runs a training update: [eps] ends at [1.931 - 4 * 0.001 = 1.927],
    where one decay would leave [1.930].  [forward] calls [choose] in
    training mode too, three times per update. *)
Theorem training_iteration_decays_epsilon_four_times :
  exists w22 w',
    epochs Toy.config 22 4 Toy.start = Returned w22
    /\ Toy.seasoned = reinitialize Toy.config w22
    /\ step Toy.seasoned = 66%Z
    /\ length (memory (actor_mem Toy.seasoned)) = 66%nat
    /\ well_shaped Toy.config 2 Toy.seasoned
    /\ eps Toy.seasoned = 1931 # 1000
    /\ EPS_DECAY Toy.config = 1 # 1000
    /\ next_epsilon Toy.config (eps Toy.seasoned) = 193 # 100
    /\ model_infer_step Toy.config Toy.seasoned = Some (w', false)
    /\ step w' = 67%Z
    /\ eps w' = 1927 # 1000
    /\ (eps w' < next_epsilon Toy.config (eps Toy.seasoned))%Q.
Proof.
  eexists _, _.
  split; [vm_compute; reflexivity|]. split; [vm_compute; reflexivity|].
  split; [vm_compute; reflexivity|]. split; [vm_compute; reflexivity|].
  split.
  { unfold well_shaped. vm_compute. repeat split; repeat constructor. }
  split; [vm_compute; reflexivity|]. split; [reflexivity|].
  split; [vm_compute; reflexivity|]. split; [vm_compute; reflexivity|].
  split; [reflexivity|]. split; reflexivity.
Qed.

(** Synchronisation on the toy globals.  At step 7 only the soft blend is
    due: each target parameter moves by [TAU = 0.0001] of its distance
    to the online one.  At step 0 the hard copy is due as well and wins. *)
Lemma target_synchronisation_run :
  exists w' w0,
    model_infer_step Toy.config (Toy.stocked 0 0 0) = Some (w', false)
    /\ pred_model (Toy.stocked 0 0 0) = [0; 1 # 10; 5 # 10; 0]
    /\ actor_model w' = [1 # 10; 3 # 10; 2 # 10; 0]
    /\ pred_model w' = [1 # 100000; 5001 # 50000; 49997 # 100000; 0]
    /\ step w' = 8%Z
    /\ model_infer_step Toy.config
         (set_step_pred (Toy.stocked 0 0 0) 0 [0; 1 # 10; 5 # 10; 0]) =
       Some (w0, false)
    /\ pred_model w0 = actor_model w0.
Proof.
  assert (E1 : {w' | model_infer_step Toy.config (Toy.stocked 0 0 0)
                     = Some (w', false)})
    by (eexists; vm_compute; reflexivity).
  assert (E2 : {w0 | model_infer_step Toy.config
                       (set_step_pred (Toy.stocked 0 0 0) 0
                                      [0; 1 # 10; 5 # 10; 0])
                     = Some (w0, false)})
    by (eexists; vm_compute; reflexivity).
  destruct E1 as [w' E1], E2 as [w0 E2]. exists w', w0.
  destruct (target_synchronisation Toy.config) as (Hcopy & Hstep & _).
  destruct (Hstep _ _ _ E1) as [S1 P1].
  destruct (Hstep _ _ _ E2) as [_ P2].
  destruct (Hcopy 0%Z (actor_model w0) [0; 1 # 10; 5 # 10; 0]) as (Hhard & _).
  split; [exact E1|]. split; [reflexivity|].
  assert (A1 : actor_model w' = [1 # 10; 3 # 10; 2 # 10; 0])
    by (vm_compute in E1; injection E1 as <-; reflexivity).
  split; [exact A1|]. split; [rewrite P1, A1; reflexivity|].
  split; [exact S1|]. split; [exact E2|].
  rewrite P2. apply Hhard. reflexivity.
Defined.

(** The training step on the mixed store under two settings of the
    surprisal constants: the logged surprisal differs, the loss, the
    updated online parameters and the rest of the telemetry do not. *)
Lemma surprisal_run :
  exists loss w1 w2,
    model_train Toy.config 64 Toy.mixed = Some (loss, w1)
    /\ model_train (with_surprisal Toy.config 1 2) 64 Toy.mixed
       = Some (loss, w2)
    /\ multiplot w1 =
       [("surprisal"%string, 1 # 50); ("grad_norm"%string, 6392 # 125)]
    /\ multiplot w2 =
       [("surprisal"%string, 40); ("grad_norm"%string, 6392 # 125)]
    /\ actor_model w1 = [1 # 10; 13 # 10; 6 # 5; 0]
    /\ actor_model w2 = actor_model w1.
Proof.
  pose proof (surprisal_reaches_telemetry_only Toy.config 1 2 64 Toy.mixed)
    as [_ H].
  assert (E1 : {p | model_train Toy.config 64 Toy.mixed = Some p})
    by (eexists; vm_compute; reflexivity).
  assert (E2 : {p | model_train (with_surprisal Toy.config 1 2) 64 Toy.mixed
                    = Some p})
    by (eexists; vm_compute; reflexivity).
  destruct E1 as [[l1 w1] E1], E2 as [[l2 w2] E2].
  rewrite E1, E2 in H. destruct H as [<- Hw].
  exists l1, w1, w2.
  split; [exact E1|]. split; [exact E2|].
  apply (f_equal (@actor_model Q nat unit nat)) in Hw. simpl in Hw.
  vm_compute in E1. injection E1 as _ <-.
  vm_compute in E2. injection E2 as _ <-.
  repeat split.
Defined.

(** * The whole program *)

Section Program.
Context {R : Type} {SR : Scalar R}.
Context {Env : Type} {EN : Environment R Env}.
Context {NN : Network R}.
Context {Opt : Type} {TO : Torch R Opt}.
Context {Rng : Type} {RD : Random R Rng}.
Variable cfg : Config R.

Local Abbreviation World := (@World R Env Opt Rng).

(** ** Errors *)

Lemma send_short_to_long_mem_short n : forall sm am plot,
  (length sm < n)%nat -> send_short_to_long_mem cfg n sm am plot = None.
Proof.
  induction n as [|n IH]; intros sm am plot Hn; simpl; [lia|].
  destruct sm as [|b sm]; [reflexivity|]. apply IH. simpl in Hn. lia.
Qed.

(** X1.  [send_short_to_long_mem(n)] raises (a pop from the empty list)
    exactly when it is asked for more blocks than the window holds. *)
Theorem flush_raises_iff_short n sm am plot :
  send_short_to_long_mem cfg n sm am plot = None <-> (length sm < n)%nat.
Proof.
  split; [|apply send_short_to_long_mem_short].
  intros H. destruct (Nat.ltb_spec (length sm) n) as [Hlt|Hge]; [exact Hlt|].
  rewrite send_short_to_long_mem_spec in H by exact Hge. discriminate.
Qed.

(** ** Shapes *)

Lemma length_concat_uniform {A} d (l : list (list A)) :
  Forall (fun o => length o = d) l ->
  length (concat l) = (length l * d)%nat.
Proof.
  induction 1 as [|o l Ho _ IH]; simpl; [reflexivity|].
  rewrite length_app, IH, Ho. reflexivity.
Qed.

Lemma Forall_deque_append {A} (P : A -> Prop) n (d : list A) x :
  Forall P d -> P x -> Forall P (deque_append n d x).
Proof.
  intros Hd Hx. unfold deque_append.
  assert (Happ : Forall P (d ++ [x]))
    by (apply Forall_app; split; [exact Hd|now constructor]).
  destruct (_ <? _)%nat; [exact Happ|].
  destruct (d ++ [x]); [constructor|].
  now apply Forall_cons_iff in Happ.
Qed.

Lemma Forall_update_at {A} (P : A -> Prop) (f : A -> A) :
  (forall x, P x -> P (f x)) ->
  forall k l, Forall P l -> Forall P (update_at f k l).
Proof.
  intros Hf k l Hl. revert k.
  induction Hl as [|x l Hx Hl IH]; intros [|k]; simpl; constructor; auto.
Qed.

(** Shaping keeps whatever [add_reward] keeps. *)
Lemma propagate_reward_preserves (P : mem_block R -> Prop) r :
  (forall v b, P b -> P (add_reward v b)) ->
  forall sm, Forall P sm -> Forall P (propagate_reward cfg r sm).
Proof.
  intros HP sm. unfold propagate_reward. destruct (_ || _); [|exact (fun H => H)].
  generalize (seq 0 (length sm)). intros idx. revert sm.
  induction idx as [|i idx IH]; intros sm Hsm; simpl; [exact Hsm|].
  apply IH. unfold affect_one. apply Forall_update_at; [apply HP|exact Hsm].
Qed.

Lemma admission_preserves (P : Transition R -> Prop)
    (l : list (mem_block R)) : forall am : MemoryStack R,
  Forall (fun b => P (Transition_of b)) l ->
  Forall P (memory am) ->
  Forall P (memory (fold_left (conditional_admission cfg) l am)).
Proof.
  induction l as [|b l IH]; intros am Hl Ham; simpl; [exact Ham|].
  apply Forall_cons_iff in Hl. destruct Hl as [Hb Hl].
  apply IH; [exact Hl|].
  unfold conditional_admission. destruct (fgt _ _); [|exact Ham].
  assert (Happ : Forall P (memory am ++ [Transition_of b])).
  { apply Forall_app. split; [exact Ham|]. now constructor. }
  simpl. destruct (_ <? _)%Z; [exact Happ|].
  destruct (memory am ++ [Transition_of b]); [constructor|].
  now apply Forall_cons_iff in Happ.
Qed.

(** An iteration keeps the globals well-shaped when the environment
    hands out observations of one width. *)
Lemma model_infer_step_shapes d (w w' : World) done :
  env_width d ->
  well_shaped cfg d w ->
  model_infer_step cfg w = Some (w', done) ->
  well_shaped cfg d w'.
Proof.
  intros [Hreset Hstep] (Hlen & Hstack & Htensor & Hwin & Hmem) E.
  apply model_infer_step_memory in E.
  destruct E as (row & obs & r & term & trunc & env1 & Ee & _ & E).
  cbv zeta in E. destruct E as (Esm & Eam & Eos & Ent & _ & _).
  set (n := (Pos.to_nat (INPUT_N_STATES cfg) * d)%nat) in *.
  set (obs' := if done then fst (env_reset env1) else obs) in *.
  set (stack := deque_append (Pos.to_nat (INPUT_N_STATES cfg))
                             (obs_stack w) obs') in *.
  assert (Hobs : length obs' = d).
  { unfold obs'. destruct done; [apply Hreset|].
    specialize (Hstep (env w) (argmax row)). now rewrite Ee in Hstep. }
  assert (Hpos : (0 < Pos.to_nat (INPUT_N_STATES cfg))%nat) by lia.
  assert (Hslen : length stack = Pos.to_nat (INPUT_N_STATES cfg))
    by exact (proj2 (length_deque_append (obs_stack w) obs' Hlen Hpos)).
  assert (Hsall : Forall (fun o => length o = d) stack)
    by now apply Forall_deque_append.
  assert (Hcat : length (concat stack) = n)
    by (rewrite (length_concat_uniform Hsall), Hslen; reflexivity).
  set (evict := (REWARD_AFFECT_PAST_N cfg <? length (short_memory w))%nat)
    in *.
  set (sm1 := propagate_reward cfg r
                (if evict then skipn 1 (short_memory w) else short_memory w))
    in *.
  set (am1 := if evict
              then fold_left (conditional_admission cfg)
                             (firstn 1 (short_memory w)) (actor_mem w)
              else actor_mem w) in *.
  set (blk := {| mb_state := next_state_tensor w; mb_action := argmax row;
                 mb_next_state := concat stack;
                 mb_reward := to_float32 r |}) in *.
  assert (Hsm1 : Forall (fun b => length (mb_state b) = n
                                  /\ length (mb_next_state b) = n)
                        (sm1 ++ [blk])).
  { apply Forall_app. split.
    - apply propagate_reward_preserves; [now intros v b|].
      unfold evict. destruct (_ <? _)%nat;
        [now apply Forall_skipn_1|exact Hwin].
    - constructor; [|constructor]. split; [exact Htensor|exact Hcat]. }
  assert (Ham1 : Forall (fun t => length (state t) = n
                                  /\ length (next_state t) = n)
                        (memory am1)).
  { unfold am1. destruct evict; [|exact Hmem].
    apply admission_preserves; [|exact Hmem].
    now apply Forall_firstn_1. }
  unfold well_shaped. fold n. rewrite Esm, Eam, Eos, Ent.
  split; [exact Hslen|]. split; [exact Hsall|]. split; [exact Hcat|].
  destruct done.
  - split; [constructor|]. now apply admission_preserves.
  - split; [exact Hsm1|exact Ham1].
Qed.

(** X2.  From well-shaped globals (the stack holds [INPUT_N_STATES]
    observations of [d] entries and every recorded state has
    [INPUT_N_STATES * d], the width [lin_1] accepts) whose recorded
    actions are actions of the environment, with an environment that
    hands out observations of [d] entries, on a step whose [torch.save]
    is not reached, an iteration of the episode loop raises nowhere: not
    in the telemetry of the four outputs, the eviction, the terminal
    flush, the sampling or the two [gather]s of the training step.  The
    globals it leaves are again well-shaped and in range. *)
Theorem iteration_never_raises d (w : World) :
  env_width d ->
  well_shaped cfg d w ->
  actions_in_range w ->
  save_due cfg w = false ->
  exists w' done,
    model_infer_step cfg w = Some (w', done)
    /\ well_shaped cfg d w'
    /\ actions_in_range w'.
Proof.
  intros Henv Hshape Hw _.
  destruct (model_infer_step_total cfg Hw) as (w' & done & E & Hw').
  exists w', done. split; [exact E|]. split; [|exact Hw'].
  exact (model_infer_step_shapes Henv Hshape E).
Qed.

Lemma model_infer_loop_range fuel : forall (w w' : World),
  actions_in_range w ->
  model_infer_loop cfg fuel w = Returned w' ->
  actions_in_range w'.
Proof.
  induction fuel as [|fuel IH]; intros w w' Hw; simpl; [discriminate|].
  destruct (model_infer_step_total cfg Hw) as (w1 & done & -> & Hw1).
  destruct done; [now intros [= <-]|]. now apply IH.
Qed.

Lemma model_infer_range fuel (w : World) :
  actions_in_range w ->
  model_infer cfg fuel w <> Raised
  /\ forall w', model_infer cfg fuel w = Returned w' -> actions_in_range w'.
Proof.
  intros Hw. unfold model_infer. split.
  - now apply model_infer_loop_never_raises.
  - intros w'. now apply model_infer_loop_range.
Qed.

Lemma episodes_range n fuel : forall w : World,
  actions_in_range w ->
  episodes cfg n fuel w <> Raised
  /\ forall w', episodes cfg n fuel w = Returned w' -> actions_in_range w'.
Proof.
  induction n as [|n IH]; intros w Hw; simpl.
  - split; [discriminate|]. now intros w' [= <-].
  - destruct (model_infer_range fuel Hw) as [Hnr Hret].
    destruct (model_infer cfg fuel w) as [w1| |]; try congruence.
    + apply IH. now apply Hret.
    + split; discriminate.
Qed.

Lemma reinitialize_range (w : World) :
  actions_in_range w -> actions_in_range (reinitialize cfg w).
Proof.
  unfold reinitialize, actions_in_range.
  now destruct (env_reset (env w)).
Qed.

Lemma epochs_range n fuel : forall w : World,
  actions_in_range w ->
  epochs cfg n fuel w <> Raised
  /\ forall w', epochs cfg n fuel w = Returned w' -> actions_in_range w'.
Proof.
  induction n as [|n IH]; intros w Hw; simpl.
  - split; [discriminate|]. now intros w' [= <-].
  - unfold epoch.
    destruct (episodes_range (EPISODES_PER_EPOCH cfg) fuel
                             (reinitialize_range Hw)) as [Hnr Hret].
    destruct (episodes cfg _ fuel _) as [w1| |]; try congruence.
    + apply IH. now apply Hret.
    + split; discriminate.
Qed.

Lemma model_infer_loop_shapes d fuel : forall (w w' : World),
  env_width d ->
  well_shaped cfg d w ->
  model_infer_loop cfg fuel w = Returned w' ->
  well_shaped cfg d w'.
Proof.
  induction fuel as [|fuel IH]; intros w w' Henv Hw; simpl; [discriminate|].
  destruct (model_infer_step cfg w) as [[w1 done]|] eqn:E; [|discriminate].
  apply (model_infer_step_shapes Henv Hw) in E.
  destruct done; [now intros [= <-]|]. now apply IH.
Qed.

Lemma model_infer_shapes d fuel (w w' : World) :
  env_width d ->
  well_shaped cfg d w ->
  model_infer cfg fuel w = Returned w' ->
  well_shaped cfg d w'.
Proof.
  intros Henv Hw. unfold model_infer.
  now apply model_infer_loop_shapes.
Qed.

Lemma episodes_shapes d n fuel : forall (w w' : World),
  env_width d ->
  well_shaped cfg d w ->
  episodes cfg n fuel w = Returned w' ->
  well_shaped cfg d w'.
Proof.
  induction n as [|n IH]; intros w w' Henv Hw; simpl.
  - now intros [= <-].
  - destruct (model_infer cfg fuel w) as [w1| |] eqn:E; try discriminate.
    apply IH; [exact Henv|]. eapply model_infer_shapes; eassumption.
Qed.

Lemma Forall_repeat {A} (P : A -> Prop) x n : P x -> Forall P (repeat x n).
Proof.
  intros Hx. apply Forall_forall. intros y Hy.
  apply repeat_spec in Hy. now subst y.
Qed.

(** The re-initialisation that opens an epoch refills the stack with
    copies of the observation of the reset. *)
Lemma reinitialize_shapes d (w : World) :
  env_width d -> well_shaped cfg d w -> well_shaped cfg d (reinitialize cfg w).
Proof.
  intros [Hreset _] (_ & _ & _ & Hwin & Hmem).
  unfold reinitialize. specialize (Hreset (env w)).
  destruct (env_reset (env w)) as [obs e1]. simpl in Hreset.
  assert (Hall : Forall (fun o => length o = d)
                        (repeat obs (Pos.to_nat (INPUT_N_STATES cfg))))
    by now apply Forall_repeat.
  unfold well_shaped. simpl.
  split; [apply repeat_length|]. split; [exact Hall|].
  split; [|split; [exact Hwin|exact Hmem]].
  now rewrite (length_concat_uniform Hall), repeat_length.
Qed.

Lemma initial_world_shapes d theta (o : Opt) (e : Env) (g : Rng) :
  env_width d -> well_shaped cfg d (initial_world cfg theta o e g).
Proof.
  intros [Hreset _]. unfold initial_world. specialize (Hreset e).
  destruct (env_reset e) as [obs e1]. simpl in Hreset.
  assert (Hall : Forall (fun o => length o = d)
                        (repeat obs (Pos.to_nat (INPUT_N_STATES cfg))))
    by now apply Forall_repeat.
  unfold well_shaped. simpl.
  split; [apply repeat_length|]. split; [exact Hall|].
  split; [|split; constructor].
  now rewrite (length_concat_uniform Hall), repeat_length.
Qed.

Lemma epochs_shapes d n fuel : forall (w w' : World),
  env_width d ->
  well_shaped cfg d w ->
  epochs cfg n fuel w = Returned w' ->
  well_shaped cfg d w'.
Proof.
  induction n as [|n IH]; intros w w' Henv Hw; simpl.
  - now intros [= <-].
  - unfold epoch.
    destruct (episodes cfg _ fuel _) as [w1| |] eqn:E; try discriminate.
    apply IH; [exact Henv|].
    eapply episodes_shapes; [exact Henv| |exact E].
    now apply reinitialize_shapes.
Qed.

(** X3.  With [SAVING_ENABLED] off, so that [torch.save] is never
    reached, and an environment whose observations all have [d] entries,
    the loops of the program raise nowhere: started from the
    module-level initialisation, [main] returns or is still running when
    the fuel of an episode is spent, whatever the network, the optimizer
    and the random draws do; and the globals it returns with are
    well-shaped and in range.  The calls [main] makes for display
    ([env.render], [print], [multiplot.plot_all]) are outside the model. *)
Theorem main_never_raises d theta (o : Opt) (e : Env) (g : Rng) fuel :
  env_width d ->
  SAVING_ENABLED cfg = false ->
  main cfg fuel (initial_world cfg theta o e g) <> Raised
  /\ forall w',
      main cfg fuel (initial_world cfg theta o e g) = Returned w' ->
      well_shaped cfg d w' /\ actions_in_range w'.
Proof.
  intros Henv _. unfold main.
  destruct (epochs_range (EPOCHS cfg) fuel
              (proj2 (proj2 (initial_world_invariants cfg theta o e g))))
    as [Hnr Hret].
  split; [exact Hnr|]. intros w' E. split; [|exact (Hret _ E)].
  eapply epochs_shapes; [exact Henv| |exact E].
  now apply initial_world_shapes.
Qed.

(** ** Termination *)

Lemma model_infer_loop_terminates (m : Env -> nat) :
  (forall e a obs r term trunc e',
      env_step e a = (obs, r, term, trunc, e') ->
      term || trunc = true \/ (m e' < m e)%nat) ->
  forall k (w : World),
    (m (env w) <= k)%nat ->
    actions_in_range w ->
    exists w', model_infer_loop cfg (S k) w = Returned w'
               /\ actions_in_range w'.
Proof.
  intros Hm. induction k as [|k IH]; intros w Hk Hw.
  - destruct (model_infer_step_total cfg Hw) as (w1 & done & E & Hw1).
    simpl. rewrite E. destruct done; [now exists w1|].
    apply model_infer_step_memory in E.
    destruct E as (row & obs & r & term & trunc & env1 & Ee & Ed & _).
    destruct (Hm _ _ _ _ _ _ _ Ee) as [Hd|Hlt]; [congruence|lia].
  - destruct (model_infer_step_total cfg Hw) as (w1 & done & E & Hw1).
    cbn [model_infer_loop]. rewrite E. destruct done; [now exists w1|].
    apply IH; [|exact Hw1].
    apply model_infer_step_memory in E.
    destruct E as (row & obs & r & term & trunc & env1 & Ee & Ed & E).
    cbv zeta in E. destruct E as (_ & _ & _ & _ & -> & _).
    destruct (Hm _ _ _ _ _ _ _ Ee) as [Hd|Hlt]; [congruence|lia].
Qed.

(** X4.  With [SAVING_ENABLED] off and an environment whose
    observations all have [d] entries: if every step of the environment
    either ends the episode or decreases a measure of the environment's
    state, an episode started from well-shaped, in-range globals with
    the measure at [k] returns within [k + 1] iterations, with globals
    that are again well-shaped and in range. *)
Theorem model_infer_terminates d (m : Env -> nat) (w : World) :
  env_width d ->
  SAVING_ENABLED cfg = false ->
  (forall e a obs r term trunc e',
      env_step e a = (obs, r, term, trunc, e') ->
      term || trunc = true \/ (m e' < m e)%nat) ->
  well_shaped cfg d w ->
  actions_in_range w ->
  exists w',
    model_infer cfg (S (m (env w))) w = Returned w'
    /\ well_shaped cfg d w'
    /\ actions_in_range w'.
Proof.
  intros Henv _ Hm Hshape Hw.
  destruct (model_infer_loop_terminates m Hm
              (w := set_observation w (env w) (obs_stack w) (next_obs w)
                                    (next_state_tensor w) (lit 0))
              (Nat.le_refl _) Hw) as (w' & E & Hw').
  exists w'. split; [exact E|]. split; [|exact Hw'].
  eapply model_infer_loop_shapes; [exact Henv| |exact E]. exact Hshape.
Qed.

Lemma model_infer_bounded (m : Env -> nat) bound :
  (forall e a obs r term trunc e',
      env_step e a = (obs, r, term, trunc, e') ->
      term || trunc = true \/ (m e' < m e)%nat) ->
  (forall e, (m e <= bound)%nat) ->
  forall w : World,
    actions_in_range w ->
    exists w', model_infer cfg (S bound) w = Returned w'
               /\ actions_in_range w'.
Proof.
  intros Hm Hb w Hw. unfold model_infer.
  apply (model_infer_loop_terminates m Hm); [apply Hb|exact Hw].
Qed.

(** X5.  With [SAVING_ENABLED] off, an environment whose observations
    all have [d] entries, and the assumption of X4 with the measure
    bounded by [bound]: [main], started from the module-level
    initialisation, returns when every episode is given [bound + 1]
    iterations: all [EPOCHS] epochs of [EPISODES_PER_EPOCH] episodes
    complete, and the globals at the end are well-shaped and in range.
    The calls [main] makes for display ([env.render], [print],
    [multiplot.plot_all]) are outside the model. *)
Theorem main_terminates d (m : Env -> nat) bound theta (o : Opt) (e : Env)
    (g : Rng) :
  env_width d ->
  SAVING_ENABLED cfg = false ->
  (forall e a obs r term trunc e',
      env_step e a = (obs, r, term, trunc, e') ->
      term || trunc = true \/ (m e' < m e)%nat) ->
  (forall e, (m e <= bound)%nat) ->
  exists w',
    main cfg (S bound) (initial_world cfg theta o e g) = Returned w'
    /\ well_shaped cfg d w'
    /\ actions_in_range w'.
Proof.
  intros Henv _ Hm Hb.
  assert (Hepisodes : forall n (w : World),
             actions_in_range w ->
             exists w', episodes cfg n (S bound) w = Returned w'
                        /\ actions_in_range w').
  { induction n as [|n IH]; intros w Hw; cbn [episodes]; [now exists w|].
    destruct (model_infer_bounded m Hm Hb Hw) as (w1 & -> & Hw1).
    now apply IH. }
  assert (Hepochs : forall n (w : World),
             actions_in_range w ->
             exists w', epochs cfg n (S bound) w = Returned w'
                        /\ actions_in_range w').
  { induction n as [|n IH]; intros w Hw; cbn [epochs]; [now exists w|].
    unfold epoch.
    destruct (Hepisodes (EPISODES_PER_EPOCH cfg) _ (reinitialize_range Hw))
      as (w1 & -> & Hw1).
    now apply IH. }
  destruct (Hepochs (EPOCHS cfg) _
              (proj2 (proj2 (initial_world_invariants cfg theta o e g))))
    as (w' & E & Hw').
  exists w'. split; [exact E|]. split; [|exact Hw'].
  eapply epochs_shapes; [exact Henv| |exact E].
  now apply initial_world_shapes.
Qed.

(** ** Invariants of the globals *)

Lemma admission_admissible (l : list (mem_block R)) :
  forall am : MemoryStack R,
  Forall (fun t => fgt (fabs (reward t)) (MEMORY_REWARD_THRESH cfg) = true)
         (memory am) ->
  Forall (fun t => fgt (fabs (reward t)) (MEMORY_REWARD_THRESH cfg) = true)
         (memory (fold_left (conditional_admission cfg) l am)).
Proof.
  induction l as [|b l IH]; intros am Ham; simpl; [exact Ham|].
  apply IH. unfold conditional_admission.
  destruct (fgt (fabs (mb_reward b)) (MEMORY_REWARD_THRESH cfg)) eqn:Eb;
    [|exact Ham].
  assert (Happ : Forall (fun t => fgt (fabs (reward t))
                                      (MEMORY_REWARD_THRESH cfg) = true)
                        (memory am ++ [Transition_of b])).
  { apply Forall_app. split; [exact Ham|]. now constructor. }
  simpl. destruct (_ <? _)%Z; [exact Happ|].
  destruct (memory am ++ [Transition_of b]); [constructor|].
  now apply Forall_cons_iff in Happ.
Qed.

(** X6.  At every point [main] passes through, the shaping window holds
    at most [REWARD_AFFECT_PAST_N + 1] blocks, the observation stack
    holds exactly [INPUT_N_STATES] observations, [next_state_tensor] is
    the concatenation of that stack, and every recorded action is an
    action of the environment. *)
Theorem visited_globals_are_well_formed theta (o : Opt) (e : Env) (g : Rng)
    (w : World) :
  visits cfg (initial_world cfg theta o e g) w ->
  (length (short_memory w) <= S (REWARD_AFFECT_PAST_N cfg))%nat
  /\ length (obs_stack w) = Pos.to_nat (INPUT_N_STATES cfg)
  /\ next_state_tensor w = concat (obs_stack w)
  /\ actions_in_range w.
Proof.
  intros H. remember (initial_world cfg theta o e g) as w0 eqn:E0.
  induction H as [w|w w1 w2 done _ IH Hstep|w w1 _ IH|w w1 _ IH].
  - subst w. destruct (initial_world_invariants cfg theta o e g)
      as (Hsm & Hstack & Hrange).
    cbv zeta in Hsm. rewrite Hsm.
    split; [simpl; lia|]. split; [exact Hstack|]. split; [|exact Hrange].
    unfold initial_world. now destruct (env_reset e).
  - destruct (IH E0) as (Hlen & Hstack & _ & Hrange).
    destruct (model_infer_step_total cfg Hrange) as (w3 & d & E & Hr).
    rewrite Hstep in E. injection E as <- _.
    apply model_infer_step_memory in Hstep.
    destruct Hstep as (row & obs & r & term & trunc & env1 & _ & _ & H).
    cbv zeta in H. destruct H as (Hsm & _ & Hobs & Htensor & _).
    split; [|split; [|split; [|exact Hr]]].
    + rewrite Hsm. destruct done; [simpl; lia|].
      rewrite length_app, propagate_reward_length.
      destruct (Nat.ltb_spec (REWARD_AFFECT_PAST_N cfg)
                             (length (short_memory w1)));
        [rewrite length_skipn|]; simpl; lia.
    + rewrite Hobs. apply length_deque_append; [exact Hstack|lia].
    + now rewrite Htensor, Hobs.
  - exact (IH E0).
  - destruct (IH E0) as (Hlen & _ & _ & Hrange).
    destruct (reinitialize_invariants cfg w1) as (Hsm & _ & Hstack).
    rewrite Hsm. split; [exact Hlen|]. split; [exact Hstack|].
    split; [|now apply reinitialize_range].
    unfold reinitialize. now destruct (env_reset (env w1)).
Qed.

(** X7.  The replay store only ever holds transitions that passed the
    admission test: at every point [main] passes through, the absolute
    value of the reward of every stored transition is strictly above
    [MEMORY_REWARD_THRESH]. *)
Theorem replay_store_holds_admitted_only theta (o : Opt) (e : Env) (g : Rng)
    (w : World) :
  visits cfg (initial_world cfg theta o e g) w ->
  Forall (fun t => fgt (fabs (reward t)) (MEMORY_REWARD_THRESH cfg) = true)
         (memory (actor_mem w)).
Proof.
  intros H. remember (initial_world cfg theta o e g) as w0 eqn:E0.
  induction H as [w|w w1 w2 done _ IH Hstep|w w1 _ IH|w w1 _ IH].
  - subst w. unfold initial_world. destruct (env_reset e). constructor.
  - specialize (IH E0). apply model_infer_step_memory in Hstep.
    destruct Hstep as (row & obs & r & term & trunc & env1 & _ & _ & H).
    cbv zeta in H. destruct H as (_ & -> & _).
    assert (Hev : Forall (fun t => fgt (fabs (reward t))
                                       (MEMORY_REWARD_THRESH cfg) = true)
                    (memory (if (REWARD_AFFECT_PAST_N cfg
                                 <? length (short_memory w1))%nat
                             then fold_left (conditional_admission cfg)
                                    (firstn 1 (short_memory w1)) (actor_mem w1)
                             else actor_mem w1))).
    { destruct (_ <? _)%nat; [now apply admission_admissible|exact IH]. }
    destruct done; [now apply admission_admissible|exact Hev].
  - exact (IH E0).
  - destruct (reinitialize_invariants cfg w1) as (_ & -> & _). exact (IH E0).
Qed.

(** ** Telemetry *)

Lemma backward_pass_multiplot bs (w : World) l gr e g m :
  backward_pass cfg bs w = Some (l, gr, e, g, m) ->
  exists v, m = add_entry "surprisal" v (multiplot w).
Proof.
  unfold backward_pass.
  destruct (sample (actor_mem w) bs (rng w)) as [[ts g0]|]; [|discriminate].
  destruct (forward cfg (actor_model w) (map (@state R) ts) _ true (eps w) g0)
    as [[[sv nsg] e1] g1].
  cbv beta iota zeta.
  destruct (tmax _) as [hi|]; [|discriminate].
  destruct (tmin _) as [lo|]; [|discriminate].
  destruct (gather sv _); [|discriminate].
  destruct (forward cfg (actor_model w) _ None true e1 g1)
    as [[[anp x2] e2] g2].
  destruct (forward cfg (pred_model w) _ None true e2 g2)
    as [[[po x3] e3] g3].
  destruct (gather po _); [|discriminate].
  intros [= _ _ _ _ <-]. now eexists.
Qed.

(** What [try_learning] adds to the telemetry: nothing, or the three
    entries of a training update. *)
Lemma try_learning_multiplot (w w' : World) :
  try_learning cfg w = Some w' ->
  exists trained,
    multiplot w' = multiplot w ++ trained
    /\ (trained = []
        \/ exists v gn loss,
            trained = [("surprisal"%string, v); ("grad_norm"%string, gn);
                       ("a_loss"%string, loss)]).
Proof.
  assert (Hskip : exists trained,
             multiplot w = multiplot w ++ trained
             /\ (trained = []
                 \/ exists v gn loss,
                     trained = [("surprisal"%string, v);
                                ("grad_norm"%string, gn);
                                ("a_loss"%string, loss)]))
    by (exists []; split; [now rewrite app_nil_r|now left]).
  unfold try_learning.
  destruct (negb (LEARNING_ENABLED cfg)); [now intros [= <-]|].
  destruct (_ <? _)%nat; [destruct (_ =? _)%Z|];
    try (destruct (_ && _); now intros [= <-]).
  unfold model_train.
  destruct (backward_pass cfg _ w) as [[[[[l gr] e] g] m]|] eqn:Eb;
    [|discriminate].
  apply backward_pass_multiplot in Eb. destruct Eb as [v ->].
  destruct (RAdam_step _ _ _) as [theta o]. cbv beta iota zeta.
  intros H.
  exists [("surprisal"%string, v); ("grad_norm"%string, grad_l2norm gr);
          ("a_loss"%string, l)].
  split; [|right; now eexists _, _, _].
  destruct (_ && _); injection H as <-; simpl; unfold add_entry;
    now rewrite <- !app_assoc.
Qed.

(** The telemetry of one iteration, with the blocks it flushed. *)
Lemma model_infer_step_trace (w w' : World) done :
  model_infer_step cfg w = Some (w', done) ->
  exists o0 o1 o2 o3 r flushed trained,
    multiplot w' =
      multiplot w
      ++ [("output_0"%string, o0); ("output_1"%string, o1);
          ("output_2"%string, o2); ("output_3"%string, o3);
          ("natural_reward"%string, r);
          ("cumulative_reward"%string, fadd (cumulative_reward w) r)]
      ++ real_rewards flushed ++ trained
    /\ (length flushed + length (short_memory w') =
        S (length (short_memory w)))%nat
    /\ actor_mem w' = fold_left (conditional_admission cfg) flushed (actor_mem w)
    /\ (trained = []
        \/ exists v gn loss,
            trained = [("surprisal"%string, v); ("grad_norm"%string, gn);
                       ("a_loss"%string, loss)]).
Proof.
  unfold model_infer_step. intros H.
  destruct (forward cfg (actor_model w) _ None false (eps w) (rng w))
    as [[[out b] e1] g1].
  destruct (nth_error out 0) as [row|]; [|discriminate].
  destruct (nth_error row 0) as [o0|]; [|discriminate].
  destruct (nth_error row 1) as [o1|]; [|discriminate].
  destruct (nth_error row 2) as [o2|]; [|discriminate].
  destruct (nth_error row 3) as [o3|]; [|discriminate].
  destruct (env_step (env w) (argmax row)) as [[[[obs r] term] trunc] env1].
  rewrite affect_short_mem_eq in H.
  exists o0, o1, o2, o3, r.
  assert (Hone : (REWARD_AFFECT_PAST_N cfg <? length (short_memory w))%nat = true ->
                 length (firstn 1 (short_memory w)) = 1%nat
                 /\ S (length (skipn 1 (short_memory w)))
                    = length (short_memory w)).
  { intros Hl. apply Nat.ltb_lt in Hl.
    destruct (short_memory w); simpl in *; [lia|]. split; reflexivity. }
  destruct (term || trunc).
  - destruct (env_reset env1) as [ob en].
    destruct (REWARD_AFFECT_PAST_N cfg <? length (short_memory w))%nat eqn:El;
      cbv beta iota in H;
      rewrite send_short_to_long_mem_spec in H by lia;
      rewrite firstn_all, skipn_all in H; cbv beta iota in H;
      (destruct (try_learning cfg _) as [w2|] eqn:Et; [|discriminate]);
      injection H as <- <-;
      pose proof (try_learning_frame _ _ Et) as (_ & Hsm & Ham & _);
      apply try_learning_multiplot in Et;
      destruct Et as (trained & Hm & Htr);
      simpl in Hsm, Ham, Hm; simpl short_memory; simpl actor_mem;
      simpl multiplot; rewrite Hsm, Ham, Hm.
    + destruct (Hone eq_refl) as [H1 H2].
      match goal with
      | |- context [fold_left _ (propagate_reward cfg r ?sm ++ [?blk]) _] =>
          exists (firstn 1 (short_memory w)
                  ++ propagate_reward cfg r sm ++ [blk]), trained
      end.
      split; [|split; [|split; [|exact Htr]]].
      * unfold add_entry, real_rewards.
        rewrite !map_app, <- !app_assoc. reflexivity.
      * rewrite !length_app, propagate_reward_length. cbn [length].
        try change (match short_memory w with [] => [] | _ :: l => l end)
          with (skipn 1 (short_memory w)).
        lia.
      * symmetry. apply fold_left_app.
    + match goal with
      | |- context [fold_left _ (propagate_reward cfg r ?sm ++ [?blk]) _] =>
          exists (propagate_reward cfg r sm ++ [blk]), trained
      end.
      split; [|split; [|split; [|exact Htr]]].
      * unfold add_entry, real_rewards.
        rewrite !map_app, <- !app_assoc. reflexivity.
      * rewrite !length_app, propagate_reward_length. cbn [length].
        try change (match short_memory w with [] => [] | _ :: l => l end)
          with (skipn 1 (short_memory w)).
        lia.
      * reflexivity.
  - destruct (REWARD_AFFECT_PAST_N cfg <? length (short_memory w))%nat eqn:El;
      cbv beta iota in H;
      (destruct (try_learning cfg _) as [w2|] eqn:Et; [|discriminate]);
      injection H as <- <-;
      pose proof (try_learning_frame _ _ Et) as (_ & Hsm & Ham & _);
      apply try_learning_multiplot in Et;
      destruct Et as (trained & Hm & Htr);
      simpl in Hsm, Ham, Hm; simpl short_memory; simpl actor_mem;
      simpl multiplot; rewrite Hsm, Ham, Hm.
    + destruct (Hone eq_refl) as [H1 H2].
      exists (firstn 1 (short_memory w)), trained.
      split; [|split; [|split; [|exact Htr]]].
      * unfold add_entry. rewrite <- !app_assoc. reflexivity.
      * rewrite !length_app, propagate_reward_length. cbn [length].
        try change (match short_memory w with [] => [] | _ :: l => l end)
          with (skipn 1 (short_memory w)).
        lia.
      * reflexivity.
    + exists [], trained.
      split; [|split; [|split; [|exact Htr]]].
      * unfold add_entry. rewrite <- !app_assoc. reflexivity.
      * rewrite !length_app, propagate_reward_length. cbn [length].
        try change (match short_memory w with [] => [] | _ :: l => l end)
          with (skipn 1 (short_memory w)).
        lia.
      * reflexivity.
Qed.

(** X9.  The telemetry of one iteration, in order: the four outputs, the
    raw reward, the cumulative reward before any reset, one
    [real_reward] entry for every block flushed during the iteration,
    and then either nothing or the three entries of a training update.
    The flushed blocks are exactly those handed, in the same order, to
    the replay store's admission, and together with the blocks left in
    the window they are the blocks of the window before plus the new
    one. *)
Theorem iteration_telemetry (w w' : World) done :
  model_infer_step cfg w = Some (w', done) ->
  exists o0 o1 o2 o3 r flushed trained,
    multiplot w' =
      multiplot w
      ++ [("output_0"%string, o0); ("output_1"%string, o1);
          ("output_2"%string, o2); ("output_3"%string, o3);
          ("natural_reward"%string, r);
          ("cumulative_reward"%string, fadd (cumulative_reward w) r)]
      ++ real_rewards flushed ++ trained
    /\ (length flushed + length (short_memory w') =
        S (length (short_memory w)))%nat
    /\ actor_mem w' = fold_left (conditional_admission cfg) flushed (actor_mem w)
    /\ (trained = []
        \/ exists v gn loss,
            trained = [("surprisal"%string, v); ("grad_norm"%string, gn);
                       ("a_loss"%string, loss)]).
Proof. apply model_infer_step_trace. Qed.

Lemma count_entries_app name (a b : Multiplot R) :
  count_entries name (a ++ b) = (count_entries name a + count_entries name b)%nat.
Proof. unfold count_entries. now rewrite filter_app, length_app. Qed.

Lemma count_real_rewards (l : list (mem_block R)) :
  count_entries "real_reward" (real_rewards l) = length l.
Proof.
  unfold count_entries, real_rewards.
  induction l as [|b l IH]; simpl; [reflexivity|]. now rewrite IH.
Qed.

(** One iteration: the step count and the number of blocks flushed or
    still in the window both grow by one. *)
Lemma flush_accounting_step (w w' : World) done :
  model_infer_step cfg w = Some (w', done) ->
  step w' = (step w + 1)%Z
  /\ (count_entries "real_reward" (multiplot w') + length (short_memory w') =
      S (count_entries "real_reward" (multiplot w) + length (short_memory w)))%nat.
Proof.
  intros H. pose proof H as H'. apply model_infer_step_memory in H'.
  destruct H' as (row & obs & r0 & term & trunc & env1 & _ & _ & H').
  cbv zeta in H'. destruct H' as (_ & _ & _ & _ & _ & Hstep).
  split; [exact Hstep|].
  apply model_infer_step_trace in H.
  destruct H as (o0 & o1 & o2 & o3 & r & flushed & trained & -> & Hlen & _ & Htr).
  rewrite !count_entries_app, count_real_rewards.
  assert (H0 : count_entries "real_reward" trained = 0%nat)
    by (destruct Htr as [->|(v & gn & loss & ->)]; reflexivity).
  rewrite H0. cbn [count_entries filter fst String.eqb Ascii.eqb Bool.eqb
                   negb length]. simpl. lia.
Qed.

Lemma flush_accounting theta (o : Opt) (e : Env) (g : Rng) (w : World) :
  visits cfg (initial_world cfg theta o e g) w ->
  step w =
  Z.of_nat (count_entries "real_reward" (multiplot w) + length (short_memory w)).
Proof.
  intros H. remember (initial_world cfg theta o e g) as w0 eqn:E0.
  induction H as [w|w w1 w2 done _ IH Hstep|w w1 _ IH|w w1 _ IH].
  - subst w. unfold initial_world. now destruct (env_reset e).
  - specialize (IH E0). apply flush_accounting_step in Hstep.
    destruct Hstep as [-> ->]. rewrite IH. lia.
  - exact (IH E0).
  - specialize (IH E0). unfold reinitialize.
    now destruct (env_reset (env w1)).
Qed.

(** X8.  No transition is lost or counted twice: at every point [main]
    passes through, the step count equals the number of [real_reward]
    entries logged so far plus the number of blocks still in the shaping
    window. *)
Theorem every_transition_is_flushed_once theta (o : Opt) (e : Env) (g : Rng)
    (w : World) :
  visits cfg (initial_world cfg theta o e g) w ->
  step w =
  Z.of_nat (count_entries "real_reward" (multiplot w) + length (short_memory w)).
Proof. apply flush_accounting. Qed.

(** ** What [main] returns *)

Lemma model_infer_loop_visits fuel : forall (w0 w w' : World),
  visits cfg w0 w ->
  model_infer_loop cfg fuel w = Returned w' ->
  visits cfg w0 w' /\ short_memory w' = [].
Proof.
  induction fuel as [|fuel IH]; intros w0 w w' Hv; simpl; [discriminate|].
  destruct (model_infer_step cfg w) as [[w1 done]|] eqn:E; [|discriminate].
  destruct done.
  - intros [= <-]. split; [now apply (visits_iteration Hv E)|].
    apply model_infer_step_memory in E.
    destruct E as (row & obs & r & term & trunc & env1 & _ & _ & E).
    cbv zeta in E. apply E.
  - apply IH. now apply (visits_iteration Hv E).
Qed.

Lemma model_infer_visits fuel (w0 w w' : World) :
  visits cfg w0 w ->
  model_infer cfg fuel w = Returned w' ->
  visits cfg w0 w' /\ short_memory w' = [].
Proof.
  intros Hv. unfold model_infer.
  apply model_infer_loop_visits. now apply visits_episode.
Qed.

Lemma episodes_visits n fuel : forall (w0 w w' : World),
  visits cfg w0 w -> short_memory w = [] ->
  episodes cfg n fuel w = Returned w' ->
  visits cfg w0 w' /\ short_memory w' = [].
Proof.
  induction n as [|n IH]; intros w0 w w' Hv Hsm; simpl.
  - now intros [= <-].
  - destruct (model_infer cfg fuel w) as [w1| |] eqn:E; try discriminate.
    unfold model_infer in E.
    apply (model_infer_loop_visits _ (visits_episode Hv)) in E.
    destruct E as [Hv1 Hsm1]. now apply IH.
Qed.

Lemma epochs_visits n fuel : forall (w0 w w' : World),
  visits cfg w0 w -> short_memory w = [] ->
  epochs cfg n fuel w = Returned w' ->
  visits cfg w0 w' /\ short_memory w' = [].
Proof.
  induction n as [|n IH]; intros w0 w w' Hv Hsm; simpl.
  - now intros [= <-].
  - unfold epoch.
    destruct (episodes cfg _ fuel (reinitialize cfg w)) as [w1| |] eqn:E;
      try discriminate.
    apply (episodes_visits _ _ (visits_epoch Hv)) in E.
    + destruct E as [Hv1 Hsm1]. now apply IH.
    + destruct (reinitialize_invariants cfg w) as (-> & _). exact Hsm.
Qed.

(** X10.  When [main] returns, the shaping window is empty and every
    environment step taken has been logged as one [real_reward] entry:
    the step count equals the number of those entries. *)
Theorem main_returns_with_everything_flushed theta (o : Opt) (e : Env)
    (g : Rng) fuel (w' : World) :
  main cfg fuel (initial_world cfg theta o e g) = Returned w' ->
  short_memory w' = []
  /\ step w' = Z.of_nat (count_entries "real_reward" (multiplot w')).
Proof.
  intros H. unfold main in H.
  apply (epochs_visits _ _ (visits_here cfg (initial_world cfg theta o e g)))
    in H.
  - destruct H as [Hv Hsm]. split; [exact Hsm|].
    apply flush_accounting in Hv. rewrite Hv, Hsm. simpl. f_equal. lia.
  - apply (initial_world_invariants cfg theta o e g).
Qed.

(** ** Checkpoints *)

(** X11.  [try_learning] writes a checkpoint exactly when learning is
    enabled, saving is enabled and the step count is a multiple of
    [SAVE_INTERVAL]; with learning disabled it returns before the save
    and never writes one.  The checkpoint is filed under the current
    step and holds the online parameters as the training update of the
    same call, if any, left them. *)
Theorem try_learning_checkpoint (w w' : World) :
  try_learning cfg w = Some w' ->
  saved w' =
  if LEARNING_ENABLED cfg
     && (step w mod Z.pos (SAVE_INTERVAL cfg) =? 0)%Z
     && SAVING_ENABLED cfg
  then saved w ++ [(step w, actor_model w')]
  else saved w.
Proof.
  unfold try_learning.
  destruct (LEARNING_ENABLED cfg); simpl; [|now intros [= <-]].
  destruct (_ <? _)%nat; [destruct (step w mod Z.pos (TRAIN_INTERVAL cfg) =? 0)%Z|];
    try (destruct (_ && _); now intros [= <-]).
  destruct (model_train cfg _ w) as [[loss w1]|] eqn:Et; [|discriminate].
  apply model_train_frame in Et.
  destruct Et as (theta & o & e & g & m & ->). simpl.
  destruct (_ && _); now intros [= <-].
Qed.

(** ** The forward pass and the recorded blocks *)

(** X12.  In training mode [forward] never explores: its two outputs are
    the same whatever the exploration rate and the random state, the
    action values are those of the network, and when recorded actions
    are supplied the next-state head is evaluated at them and not at the
    network's own choice. *)
Theorem forward_training_ignores_exploration theta x real_actions
    eps (g : Rng) eps' (g' : Rng) :
  fst (fst (forward cfg theta x real_actions true eps g)) =
  fst (fst (forward cfg theta x real_actions true eps' g'))
  /\ fst (fst (fst (forward cfg theta x real_actions true eps g))) =
     map (fun xi => map (q_value theta xi) (seq 0 N_ACTIONS)) x
  /\ forall actions,
      snd (fst (fst (forward cfg theta x (Some actions) true eps g))) =
      map (fun '(xi, c) => next_state_head theta xi c) (combine x actions).
Proof.
  rewrite !forward_training. simpl. repeat split.
  intros actions. now rewrite forward_training.
Qed.

(** X13.  Consecutive blocks chain: over two iterations that do not end
    the episode, the state recorded in the second new block is the next
    state recorded in the first. *)
Theorem consecutive_blocks_chain (w w1 w2 : World) :
  model_infer_step cfg w = Some (w1, false) ->
  model_infer_step cfg w1 = Some (w2, false) ->
  exists kept1 b1 kept2 b2,
    short_memory w1 = kept1 ++ [b1]
    /\ short_memory w2 = kept2 ++ [b2]
    /\ mb_state b2 = mb_next_state b1.
Proof.
  intros H1 H2.
  apply model_infer_step_memory in H1, H2.
  destruct H1 as (row1 & obs1 & r1 & term1 & trunc1 & env1 & _ & _ & H1).
  destruct H2 as (row2 & obs2 & r2 & term2 & trunc2 & env2 & _ & _ & H2).
  cbv zeta in H1, H2.
  destruct H1 as (Hsm1 & _ & _ & Ht1 & _). destruct H2 as (Hsm2 & _).
  eexists _, _, _, _. split; [exact Hsm1|]. split; [exact Hsm2|].
  simpl. exact Ht1.
Qed.

End Program.

(** * Concrete runs of the whole program *)

Lemma stocked_actions_in_range n k e : actions_in_range (Toy.stocked n k e).
Proof.
  split; apply Forall_forall; intros t Ht; simpl in Ht;
    apply repeat_spec in Ht; subst t; simpl; unfold N_ACTIONS; lia.
Defined.

Lemma start_actions_in_range : actions_in_range Toy.start.
Proof. split; constructor. Defined.

(** Every step of the toy environment ends the episode or leaves one
    step less. *)
Lemma toy_steps_left_decrease :
  forall (e : nat) (a : nat) obs (r : Q) term trunc (e' : nat),
    env_step e a = (obs, r, term, trunc, e') ->
    term || trunc = true \/ (Toy.steps_left e' < Toy.steps_left e)%nat.
Proof.
  intros e a obs r term trunc e'. simpl. intros [= _ _ <- <- <-].
  unfold Toy.steps_left, Toy.horizon.
  destruct e as [|[|e]]; simpl; [right; lia|right; lia|now left].
Defined.

Lemma toy_steps_left_bounded : forall e : nat, (Toy.steps_left e <= 3)%nat.
Proof. intros e. unfold Toy.steps_left, Toy.horizon. lia. Defined.

(** The toy environment hands out observations of two entries. *)
Lemma toy_env_width : env_width (Env := nat) 2.
Proof. split; intros; reflexivity. Defined.

Lemma seasoned_well_shaped : well_shaped Toy.config 2 Toy.seasoned.
Proof. unfold well_shaped. vm_compute. repeat split; repeat constructor. Defined.

Lemma seasoned_actions_in_range : actions_in_range Toy.seasoned.
Proof.
  unfold actions_in_range, N_ACTIONS. vm_compute.
  split; repeat constructor.
Defined.

Lemma start_well_shaped : well_shaped Toy.quiet 2 Toy.start.
Proof. unfold well_shaped. vm_compute. repeat split; repeat constructor. Defined.

(** An iteration on the globals of the twenty-third epoch: step 66, no
    checkpoint due, a training update on 66 stored transitions. *)
Lemma iteration_never_raises_run :
  env_width (Env := nat) 2
  /\ well_shaped Toy.config 2 Toy.seasoned
  /\ actions_in_range Toy.seasoned
  /\ save_due Toy.config Toy.seasoned = false
  /\ exists w' done,
      model_infer_step Toy.config Toy.seasoned = Some (w', done)
      /\ well_shaped Toy.config 2 w'
      /\ actions_in_range w'.
Proof.
  assert (Hsave : save_due Toy.config Toy.seasoned = false)
    by (vm_compute; reflexivity).
  split; [exact toy_env_width|]. split; [exact seasoned_well_shaped|].
  split; [exact seasoned_actions_in_range|]. split; [exact Hsave|].
  apply (iteration_never_raises toy_env_width seasoned_well_shaped
           seasoned_actions_in_range Hsave).
Defined.

(** The loops of the program on the toy environment, saving off. *)
Lemma main_never_raises_run :
  env_width (Env := nat) 2
  /\ SAVING_ENABLED Toy.quiet = false
  /\ main Toy.quiet 4 (initial_world Toy.quiet Toy.theta0 tt 0%nat 0%nat)
     <> Raised.
Proof.
  split; [exact toy_env_width|]. split; [reflexivity|].
  apply (main_never_raises Toy.quiet Toy.theta0 tt 0%nat 0%nat 4
           toy_env_width eq_refl).
Defined.

(** The toy episode returns within four iterations. *)
Lemma model_infer_terminates_run :
  env_width (Env := nat) 2
  /\ SAVING_ENABLED Toy.quiet = false
  /\ well_shaped Toy.quiet 2 Toy.start
  /\ actions_in_range Toy.start
  /\ exists w',
      model_infer Toy.quiet (S (Toy.steps_left (env Toy.start))) Toy.start
      = Returned w'
      /\ well_shaped Toy.quiet 2 w'
      /\ actions_in_range w'.
Proof.
  split; [exact toy_env_width|]. split; [reflexivity|].
  split; [exact start_well_shaped|]. split; [exact start_actions_in_range|].
  apply (model_infer_terminates (cfg := Toy.quiet) Toy.steps_left
           (w := Toy.start) toy_env_width eq_refl toy_steps_left_decrease
           start_well_shaped start_actions_in_range).
Defined.

(** All 5000 epochs complete on the toy environment, saving off. *)
Lemma main_terminates_run :
  env_width (Env := nat) 2
  /\ SAVING_ENABLED Toy.quiet = false
  /\ exists w',
      main Toy.quiet 4 (initial_world Toy.quiet Toy.theta0 tt 0%nat 0%nat)
      = Returned w'
      /\ well_shaped Toy.quiet 2 w'
      /\ actions_in_range w'.
Proof.
  split; [exact toy_env_width|]. split; [reflexivity|].
  apply (main_terminates Toy.quiet Toy.steps_left Toy.theta0 tt
           0%nat 0%nat toy_env_width eq_refl toy_steps_left_decrease
           toy_steps_left_bounded).
Defined.

(** The globals after the first iteration from the initial ones. *)
Lemma visited_globals_run :
  exists w,
    model_infer_step Toy.config Toy.start = Some (w, false)
    /\ visits Toy.config Toy.start w
    /\ length (short_memory w) = 1%nat
    /\ (length (short_memory w) <= S (REWARD_AFFECT_PAST_N Toy.config))%nat
    /\ next_state_tensor w = concat (obs_stack w).
Proof.
  assert (E : {w | model_infer_step Toy.config Toy.start = Some (w, false)})
    by (eexists; vm_compute; reflexivity).
  destruct E as [w E]. exists w.
  assert (V : visits Toy.config Toy.start w)
    by exact (visits_iteration (visits_here Toy.config Toy.start) E).
  destruct (visited_globals_are_well_formed
             (cfg := Toy.config) Toy.theta0 tt 0%nat 0%nat V) as (Hlen & _ & Htensor & _).
  split; [exact E|]. split; [exact V|].
  split; [|split; [exact Hlen|exact Htensor]].
  vm_compute in E. injection E as <-. reflexivity.
Defined.

(** The replay store after a whole toy episode. *)
Lemma replay_store_run :
  exists w,
    model_infer Toy.config 4 Toy.start = Returned w
    /\ visits Toy.config Toy.start w
    /\ map (@reward Q) (memory (actor_mem w)) = [5; 10; 10]
    /\ Forall (fun t => fgt (fabs (reward t))
                            (MEMORY_REWARD_THRESH Toy.config) = true)
              (memory (actor_mem w)).
Proof.
  assert (E : {w | model_infer Toy.config 4 Toy.start = Returned w})
    by (eexists; vm_compute; reflexivity).
  destruct E as [w E]. exists w.
  assert (V : visits Toy.config Toy.start w).
  { apply (model_infer_visits _ (visits_here Toy.config Toy.start)) in E.
    apply E. }
  split; [exact E|]. split; [exact V|]. split.
  - vm_compute in E. injection E as <-. reflexivity.
  - exact (replay_store_holds_admitted_only
             (cfg := Toy.config) Toy.theta0 tt 0%nat 0%nat V).
Defined.

(** After a whole toy episode the step count is 3 and three
    [real_reward] entries have been logged. *)
Lemma flushed_once_run :
  exists w,
    model_infer Toy.config 4 Toy.start = Returned w
    /\ visits Toy.config Toy.start w
    /\ step w = 3%Z
    /\ count_entries "real_reward" (multiplot w) = 3%nat
    /\ step w =
       Z.of_nat (count_entries "real_reward" (multiplot w)
                 + length (short_memory w)).
Proof.
  assert (E : {w | model_infer Toy.config 4 Toy.start = Returned w})
    by (eexists; vm_compute; reflexivity).
  destruct E as [w E]. exists w.
  assert (V : visits Toy.config Toy.start w).
  { apply (model_infer_visits _ (visits_here Toy.config Toy.start)) in E.
    apply E. }
  split; [exact E|]. split; [exact V|].
  split; [|split].
  - vm_compute in E. injection E as <-. reflexivity.
  - vm_compute in E. injection E as <-. reflexivity.
  - exact (every_transition_is_flushed_once
             (cfg := Toy.config) Toy.theta0 tt 0%nat 0%nat V).
Defined.

(** The telemetry of the terminal iteration of a toy episode with two
    blocks in the window: three blocks are flushed and logged. *)
Lemma iteration_telemetry_run :
  exists w',
    model_infer_step Toy.config (Toy.stocked 0 2 2) = Some (w', true)
    /\ multiplot w' =
       [("output_0"%string, 0); ("output_1"%string, 0);
        ("output_2"%string, 0); ("output_3"%string, 0);
        ("natural_reward"%string, 10); ("cumulative_reward"%string, 10);
        ("real_reward"%string, 6); ("real_reward"%string, 11);
        ("real_reward"%string, 10)].
Proof.
  assert (E : {w' | model_infer_step Toy.config (Toy.stocked 0 2 2)
                    = Some (w', true)})
    by (eexists; vm_compute; reflexivity).
  destruct E as [w' E]. exists w'. split; [exact E|].
  destruct (iteration_telemetry _ _ E)
    as (o0 & o1 & o2 & o3 & r & flushed & trained & Hm & _).
  rewrite Hm. rewrite <- Hm.
  vm_compute in E. injection E as <-. reflexivity.
Defined.

(** Two epochs of one toy episode each: six steps, six [real_reward]
    entries, an empty window. *)
Lemma main_returns_run :
  exists w',
    main Toy.brief 4 (initial_world Toy.brief Toy.theta0 tt 0%nat 0%nat)
    = Returned w'
    /\ short_memory w' = []
    /\ step w' = 6%Z
    /\ step w' = Z.of_nat (count_entries "real_reward" (multiplot w')).
Proof.
  assert (E : {w' | main Toy.brief 4
                      (initial_world Toy.brief Toy.theta0 tt 0%nat 0%nat)
                    = Returned w'})
    by (eexists; vm_compute; reflexivity).
  destruct E as [w' E]. exists w'.
  destruct (main_returns_with_everything_flushed _ _ _ _ _ _ E) as [Hsm Hcount].
  split; [exact E|]. split; [exact Hsm|]. split; [|exact Hcount].
  vm_compute in E. injection E as <-. reflexivity.
Defined.

(** At step 5000 with 65 stored transitions the training update runs and
    the checkpoint holds the parameters it produced; the parameters
    before the update were [[0.1; 0.3; 0.2; 0]]. *)
Lemma try_learning_checkpoint_run :
  exists w',
    try_learning Toy.config
      (set_step_pred (Toy.stocked 65 0 0) 5000 [0; 1 # 10; 5 # 10; 0])
    = Some w'
    /\ saved w' = [(5000%Z, [1 # 10; 13 # 10; 1 # 5; 0])].
Proof.
  assert (E : {w' | try_learning Toy.config
                      (set_step_pred (Toy.stocked 65 0 0) 5000
                                     [0; 1 # 10; 5 # 10; 0])
                    = Some w'})
    by (eexists; vm_compute; reflexivity).
  destruct E as [w' E]. exists w'. split; [exact E|].
  rewrite (try_learning_checkpoint _ _ E).
  vm_compute in E. injection E as <-. reflexivity.
Defined.

(** The first two iterations from the initial globals. *)
Lemma consecutive_blocks_run :
  exists w1 w2 b1 b2,
    model_infer_step Toy.config Toy.start = Some (w1, false)
    /\ model_infer_step Toy.config w1 = Some (w2, false)
    /\ short_memory w1 = [b1]
    /\ short_memory w2 = [b1; b2]
    /\ mb_state b2 = mb_next_state b1.
Proof.
  assert (E1 : {w1 | model_infer_step Toy.config Toy.start = Some (w1, false)})
    by (eexists; vm_compute; reflexivity).
  destruct E1 as [w1 E1].
  assert (E2 : {w2 | model_infer_step Toy.config w1 = Some (w2, false)}).
  { pose proof E1 as E. vm_compute in E. injection E as <-.
    eexists. vm_compute. reflexivity. }
  destruct E2 as [w2 E2].
  destruct (consecutive_blocks_chain _ _ E1 E2)
    as (kept1 & c1 & kept2 & c2 & _ & _ & _).
  vm_compute in E1. injection E1 as <-.
  vm_compute in E2. injection E2 as <-.
  eexists _, _, _, _.
  split; [vm_compute; reflexivity|]. split; [vm_compute; reflexivity|].
  split; [reflexivity|]. split; reflexivity.
Defined.

(** An iteration with a training update decays [eps] four times, one
    without decays it once. *)
Lemma epsilon_after_step_run :
  exists w' w'',
    model_infer_step Toy.config Toy.seasoned = Some (w', false)
    /\ eps Toy.seasoned = 1931 # 1000
    /\ eps w' = 1927 # 1000
    /\ model_infer_step Toy.config (Toy.stocked 0 0 0) = Some (w'', false)
    /\ eps w'' = 1999 # 1000.
Proof.
  assert (E1 : {w' | model_infer_step Toy.config Toy.seasoned
                     = Some (w', false)})
    by (eexists; vm_compute; reflexivity).
  assert (E2 : {w' | model_infer_step Toy.config (Toy.stocked 0 0 0)
                     = Some (w', false)})
    by (eexists; vm_compute; reflexivity).
  destruct E1 as [w' E1], E2 as [w'' E2]. exists w', w''.
  pose proof (epsilon_after_step _ _ E1) as H1.
  pose proof (epsilon_after_step _ _ E2) as H2.
  split; [exact E1|]. split; [vm_compute; reflexivity|].
  split; [|split; [exact E2|]].
  - rewrite H1. vm_compute in E1. injection E1 as <-. reflexivity.
  - rewrite H2. vm_compute in E2. injection E2 as <-. reflexivity.
Defined.
